(** * eduproback: the search client (src/search.js) and the authentication
      gate (src/server.js), embedded as Rocq functions.

    Conventions of the embedding.
    - A JavaScript string is a [string]; one [ascii] stands for one UTF-16
      code unit, so [String.length] is the [.length] of the source.
    - An [async] function is modelled by the value its promise settles to:
      [inr v] when it fulfils with [v], [inl e] when it rejects with (throws)
      the error [e].  [try { c } catch (error) { h }] is [catch c h].
    - The outside world (fetch, the identity provider, timers) is a
      parameter of every function that talks to it.
    - [console.log], [console.error] and the [Date.now] bookkeeping of
      search.js do not influence any returned value and are left out there;
      server.js keeps its console lines in the recorded effects. *)

From Stdlib Require Import String Ascii List ZArith NArith Bool Arith Lia DecimalString.
From ExtLib Require Import Structures.Monad Structures.MonadExc Data.Monads.EitherMonad.
Import ListNotations.
Import MonadNotation.
Local Open Scope string_scope.
Local Open Scope monad_scope.

(** ** The JavaScript built-ins the two files rely on *)
Module JS.

(** An [Error] object, as far as the code reads it. *)
Record Error : Type := mkErr { name : string; message : string }.

(** [new Error(msg)] *)
Definition newError (msg : string) : Error := mkErr "Error" msg.

(** The engine's [TypeError] for a property read on [null] or [undefined]. *)
Definition TypeError (msg : string) : Error := mkErr "TypeError" msg.

(** The settled value of an awaited computation. *)
Definition completion : Type -> Type := sum Error.

(** Truthiness of a string: every string but the empty one. *)
Definition truthy (s : string) : bool :=
  match s with
  | EmptyString => false
  | String _ _ => true
  end.

(** [`${n}`] for a non-negative integer. *)
Definition decimal (n : nat) : string := NilEmpty.string_of_uint (Nat.to_uint n).

(** [arr.slice(0, e)] (ECMAScript: a negative end counts from the back). *)
Definition slice0 {A : Type} (arr : list A) (e : Z) : list A :=
  let len := Z.of_nat (length arr) in
  let final := if (e <? 0)%Z then Z.max (len + e) 0 else Z.min e len in
  firstn (Z.to_nat final) arr.

(** [arr.map((x, idx) => f idx x)], indices counted from [i]. *)
Fixpoint mapi_from {A B : Type} (f : nat -> A -> B) (i : nat) (arr : list A) : list B :=
  match arr with
  | [] => []
  | x :: rest => f i x :: mapi_from f (S i) rest
  end.

Definition mapi {A B : Type} (f : nat -> A -> B) (arr : list A) : list B :=
  mapi_from f 0 arr.

(** [arr.join(sep)] on an array of strings. *)
Definition join (sep : string) (arr : list string) : string := String.concat sep arr.

(** [s.split(c)] for a one-character separator [c]. *)
Fixpoint split (c : ascii) (s : string) : list string :=
  match s with
  | EmptyString => [EmptyString]
  | String a rest =>
      if Ascii.eqb a c then EmptyString :: split c rest
      else match split c rest with
           | [] => [String a EmptyString]
           | first :: others => String a first :: others
           end
  end.

(** Is there a [c] in [s]? *)
Fixpoint contains (c : ascii) (s : string) : bool :=
  match s with
  | EmptyString => false
  | String a rest => Ascii.eqb a c || contains c rest
  end.

(** [s.replace(/<[^>]*>/g, '')]: every stretch from a '<' to the next '>'
    is dropped; a '<' with no '>' after it stays.  [in_tag] says that the
    scan is inside such a stretch (a closing '>' is then known to follow). *)
Fixpoint strip_tags_from (in_tag : bool) (s : string) : string :=
  match s with
  | EmptyString => EmptyString
  | String a rest =>
      if in_tag then
        if Ascii.eqb a ">" then strip_tags_from false rest
        else strip_tags_from true rest
      else if Ascii.eqb a "<" && contains ">" rest then strip_tags_from true rest
      else String a (strip_tags_from false rest)
  end.

Definition strip_tags (s : string) : string := strip_tags_from false s.

(** The two-newline separator ['\n\n']. *)
Definition blank_line : string := String "010" (String "010" EmptyString).

End JS.

(** ** src/search.js *)
Module Search.

(** *** Decoded provider responses

    The value [response.json()] yields, restricted to the properties the
    code reads.  Text properties are JSON strings (as both providers
    document them); a property that is absent reads as [undefined], here
    [None].  A JSON value that is neither [null] nor an object with these
    properties behaves like an object without them. *)

(** An element of [data.RelatedTopics]. *)
Inductive topic : Type :=
| TopicNull                                   (* a [null] array element *)
| Topic (Text : option string).

(** An element of [data.query.search]. *)
Inductive hit : Type :=
| HitNull
| Hit (title : option string) (snippet : option string).

Record wiki_query : Type := mkQuery { search : option (list hit) }.

Record json_object : Type := mkObject {
  Abstract : option string;
  RelatedTopics : option (list topic);   (* [None]: absent or not an array *)
  query : option wiki_query
}.

Inductive json : Type :=
| JNull
| JObject (o : json_object).

(** node-fetch's [Response]: [ok], [status] and the settled outcome of
    [json()] (which rejects on a body that is not JSON).  A body read that
    never settles is outside this record; [Awaited] below has it. *)
Record Response : Type := mkResponse {
  resp_ok : bool;
  resp_status : nat;
  resp_json : JS.completion json
}.

(** The [SnippetResult] object literals of the file; a key the literal does
    not have is [None]. *)
Record SnippetResult : Type := mkResult {
  ok : bool;
  snippets : option string;
  error : option string;
  message : option string
}.

(** What [checkSearchHealth] returns. *)
Record Health : Type := mkHealth {
  health_ok : bool;
  health_error : option string
}.

(** *** The pure steps of [webSearch] *)

(** Lines 37-39: [if (data.Abstract) snippets.push(data.Abstract)]. *)
Definition push_abstract (data : json) : JS.completion (list string) :=
  match data with
  | JNull => raise (JS.TypeError "Cannot read properties of null (reading 'Abstract')")
  | JObject o =>
      match Abstract o with
      | Some a => if JS.truthy a then ret [a] else ret []
      | None => ret []
      end
  end.

(** Lines 43-47: the [forEach] callback run over the sliced topics. *)
Fixpoint forEach_topic (topics : list topic) (snippets : list string)
  : JS.completion (list string) :=
  match topics with
  | [] => ret snippets
  | TopicNull :: _ =>
      raise (JS.TypeError "Cannot read properties of null (reading 'Text')")
  | Topic None :: rest => forEach_topic rest snippets
  | Topic (Some t) :: rest =>
      if JS.truthy t then forEach_topic rest (snippets ++ [t])
      else forEach_topic rest snippets
  end.

(** Lines 34-48: the candidate snippets collected from the decoded body. *)
Definition collect (data : json) (maxResults : Z) : JS.completion (list string) :=
  snippets <- push_abstract data ;;
  match data with
  | JObject o =>
      match RelatedTopics o with
      | Some topics => forEach_topic (JS.slice0 topics maxResults) snippets
      | None => ret snippets
      end
  | JNull => ret snippets
  end.

(** Line 63: [s => s && s.length > 20]. *)
Definition long_enough (s : string) : bool :=
  JS.truthy s && (20 <? String.length s)%nat.

(** Line 65: [(snippet, idx) => `[${idx + 1}] ${snippet}`]. *)
Definition format_snippet (idx : nat) (snippet : string) : string :=
  "[" ++ JS.decimal (idx + 1) ++ "] " ++ snippet.

(** Lines 62-65, before the [join]: the formatted entries. *)
Definition formatEntries (snippets : list string) (maxResults : Z) : list string :=
  JS.mapi format_snippet (JS.slice0 (filter long_enough snippets) maxResults).

(** Lines 62-66. *)
Definition formattedSnippets (snippets : list string) (maxResults : Z) : string :=
  JS.join JS.blank_line (formatEntries snippets maxResults).

(** *** The pure steps of [searchWikipedia] *)

(** Line 125: [data.query?.search] ([data.query] itself throws on [null]). *)
Definition query_search (data : json) : JS.completion (option (list hit)) :=
  match data with
  | JNull => raise (JS.TypeError "Cannot read properties of null (reading 'query')")
  | JObject o =>
      match query o with
      | Some q => ret (search q)
      | None => ret None
      end
  end.

(** Line 130: the [map] callback. *)
Definition format_hit (idx : nat) (result : hit) : JS.completion string :=
  match result with
  | HitNull => raise (JS.TypeError "Cannot read properties of null (reading 'title')")
  | Hit title snippet =>
      match snippet with
      | None =>
          raise (JS.TypeError "Cannot read properties of undefined (reading 'replace')")
      | Some s =>
          ret ("[" ++ JS.decimal (idx + 1) ++ "] "
                   ++ match title with Some t => t | None => "undefined" end
                   ++ ": " ++ JS.strip_tags s)
      end
  end.

(** Lines 129-130: [map] with a callback that may throw. *)
Fixpoint map_hits (idx : nat) (results : list hit) : JS.completion (list string) :=
  match results with
  | [] => ret []
  | r :: rest =>
      e <- format_hit idx r ;;
      es <- map_hits (S idx) rest ;;
      ret (e :: es)
  end.

(** Line 15: the instant-answer URL for an encoded query. *)
Definition webSearch_url (q : string) : string :=
  "https://api.duckduckgo.com/?q=" ++ q ++ "&format=json&no_html=1&skip_disambig=1".

(** Line 22. *)
Definition webSearch_headers : list (string * string) :=
  [("User-Agent", "EduProAI/1.0")].

(** Line 111: the encyclopedia-search URL for an encoded query. *)
Definition searchWikipedia_url (q : string) : string :=
  "https://en.wikipedia.org/w/api.php?action=query&list=search&srsearch="
    ++ q ++ "&format=json&srlimit=3".

(** The external failures of one request: [fetch] rejects (a network
    failure, or the 'AbortError' raised when the 10-second timer aborts
    it), the status is not a success, or the body is not JSON. *)
Definition request_fails (outcome : JS.completion Response) : Prop :=
  match outcome with
  | inl _ => True
  | inr response =>
      resp_ok response = false \/ (exists e, resp_json response = inl e)
  end.

Section Client.

(** The world one call runs in. *)
Variable encodeURIComponent : string -> JS.completion string.
Variable fetch : string -> list (string * string) -> JS.completion Response.

(** Lines 15-48 of [webSearch]: request, status check, decoding and the
    collection of candidates. *)
Definition webSearch_collect (query : string) (maxResults : Z)
  : JS.completion (list string) :=
  q <- encodeURIComponent query ;;
  let url := webSearch_url q in
  response <- fetch url webSearch_headers ;;
  (if negb (resp_ok response)
   then raise (JS.newError ("Search API returned " ++ JS.decimal (resp_status response)))
   else ret tt) ;;
  data <- resp_json response ;;
  collect data maxResults.

(** Lines 13-72: the [try] block. *)
Definition webSearch_try (query : string) (maxResults : Z)
  : JS.completion SnippetResult :=
  snippets <- webSearch_collect query maxResults ;;
  if (length snippets =? 0)%nat then
    ret (mkResult true None None (Some "No search results found"))
  else
    ret (mkResult true (Some (formattedSnippets snippets maxResults)) None None).

(** Lines 73-89: the [catch] block. *)
Definition webSearch_catch (error : JS.Error) : JS.completion SnippetResult :=
  if String.eqb (JS.name error) "AbortError" then
    ret (mkResult false None (Some "Search timed out") None)
  else
    ret (mkResult false None (Some (JS.message error)) None).

(** Lines 9-90.  The statements before the [try] (lines 10-11) only read
    the clock and write a console line with the query, which cannot throw
    for a string. *)
Definition webSearch (query : string) (maxResults : Z) : JS.completion SnippetResult :=
  catch (webSearch_try query maxResults) webSearch_catch.

(** Lines 94-101. *)
Definition checkSearchHealth_try : JS.completion Health :=
  result <- webSearch "test" 1 ;;
  ret (mkHealth (ok result) None).

Definition checkSearchHealth_catch (error : JS.Error) : JS.completion Health :=
  ret (mkHealth false (Some (JS.message error))).

Definition checkSearchHealth : JS.completion Health :=
  catch checkSearchHealth_try checkSearchHealth_catch.

(** Lines 111-125 of [searchWikipedia]: request, status check, decoding
    and the read of [data.query?.search]. *)
Definition searchWikipedia_found (query : string)
  : JS.completion (option (list hit)) :=
  q <- encodeURIComponent query ;;
  let url := searchWikipedia_url q in
  response <- fetch url [] ;;
  (if negb (resp_ok response)
   then raise (JS.newError "Wikipedia API failed")
   else ret tt) ;;
  data <- resp_json response ;;
  query_search data.

(** Lines 110-134: the [try] block of [searchWikipedia]. *)
Definition searchWikipedia_try (query : string) : JS.completion SnippetResult :=
  found <- searchWikipedia_found query ;;
  match found with
  | None => ret (mkResult true None None None)
  | Some [] => ret (mkResult true None None None)
  | Some results =>
      entries <- map_hits 0 results ;;
      ret (mkResult true (Some (JS.join JS.blank_line entries)) None None)
  end.

(** Lines 135-138. *)
Definition searchWikipedia_catch (error : JS.Error) : JS.completion SnippetResult :=
  ret (mkResult false None (Some (JS.message error)) None).

Definition searchWikipedia (query : string) : JS.completion SnippetResult :=
  catch (searchWikipedia_try query) searchWikipedia_catch.

(** *** The entries behind a returned [snippets] text

    [snippets] is the [join] of a list of entries; the two functions below
    name that list (empty when the call returns no text). *)
Definition webSearch_entries (query : string) (maxResults : Z) : list string :=
  match webSearch_collect query maxResults with
  | inr (c :: cs) => formatEntries (c :: cs) maxResults
  | _ => []
  end.

Definition searchWikipedia_entries (query : string) : list string :=
  match searchWikipedia_found query with
  | inr (Some results) =>
      match map_hits 0 results with
      | inr entries => entries
      | inl _ => []
      end
  | _ => []
  end.

End Client.

(** The threshold of line 63. *)
Definition minimum_length : nat := 20.

(** The invariant the specification's data model states for a
    [SnippetResult] whose [snippets] text joins [entries]: a failure has
    no text, and a text has at least one entry, each longer than the
    threshold. *)
Definition SnippetResult_invariant (r : SnippetResult) (entries : list string) : Prop :=
  (ok r = false -> snippets r = None) /\
  (snippets r <> None ->
   entries <> [] /\ Forall (fun e => minimum_length < String.length e) entries).

End Search.

(** ** src/server.js: the [requireAuth] middleware *)
Module Server.

(** [req], as far as the middleware reads it: [req.headers.authorization]. *)
Record request : Type := mkRequest { authorization : option string }.

(** A JSON body passed to [res.json]: its keys in order, each with a
    boolean or a string value. *)
Inductive value : Type :=
| VBool (b : bool)
| VString (s : string).

(** [res.status(code).json(body)]. *)
Record reply : Type := mkReply { status : nat; body : list (string * value) }.

(** What [supabase.auth.getUser] fulfils with: [{ data: { user }, error }].
    A user is one of an email account: a user object without an [email]
    property is outside this record. *)
Record User : Type := mkUser { email : string }.
Record UserResponse : Type := mkUserResponse {
  user : option User;          (* [data.user], [None] for [null] *)
  error : option string        (* [error], [None] for [null] *)
}.

(** One identity-provider lookup: when it settles (milliseconds after the
    call, [None] when it never does) and what it settles to. *)
Record lookup : Type := mkLookup {
  settles_after : option N;
  settles_to : JS.completion UserResponse
}.

(** The world of one request: the provider, and which of the two promises
    of the race is served first when both settle in the same millisecond. *)
Record world : Type := mkWorld {
  getUser : string -> lookup;
  timer_first_on_tie : bool
}.

(** Everything the middleware does that its caller can observe. *)
Record effects : Type := mkEffects {
  console : list string;          (* lines written by console.log / console.error *)
  getUser_calls : list string;    (* tokens submitted to the identity provider *)
  userEmail : option string;      (* req.userEmail, [None] while unset *)
  next_calls : nat;               (* calls of next() *)
  sent : list reply               (* responses written to res *)
}.

Definition untouched : effects := mkEffects [] [] None 0 [].

(** Line 26: [process.env.BYPASS_AUTH === 'true']. *)
Definition BYPASS_AUTH (env_BYPASS_AUTH : option string) : bool :=
  match env_BYPASS_AUTH with
  | Some v => String.eqb v "true"
  | None => false
  end.

(** The middleware's monad: effects are kept when an exception is thrown. *)
Definition M (A : Type) : Type := effects -> JS.completion A * effects.

#[local] Instance Monad_M : Monad M := {
  ret := fun _ a fx => (inr a, fx);
  bind := fun _ _ c k fx =>
    match c fx with
    | (inl e, fx') => (inl e, fx')
    | (inr a, fx') => k a fx'
    end
}.

#[local] Instance Exception_M : MonadExc JS.Error M := {
  raise := fun _ e fx => (inl e, fx);
  catch := fun _ c h fx =>
    match c fx with
    | (inl e, fx') => h e fx'
    | (inr a, fx') => (inr a, fx')
    end
}.

Definition console_write (line : string) : M unit :=
  fun fx => (inr tt, mkEffects (console fx ++ [line]) (getUser_calls fx)
                               (userEmail fx) (next_calls fx) (sent fx)).

Definition set_userEmail (e : string) : M unit :=
  fun fx => (inr tt, mkEffects (console fx) (getUser_calls fx)
                               (Some e) (next_calls fx) (sent fx)).

Definition next : M unit :=
  fun fx => (inr tt, mkEffects (console fx) (getUser_calls fx)
                               (userEmail fx) (S (next_calls fx)) (sent fx)).

Definition res_status_json (code : nat) (b : list (string * value)) : M unit :=
  fun fx => (inr tt, mkEffects (console fx) (getUser_calls fx)
                               (userEmail fx) (next_calls fx) (sent fx ++ [mkReply code b])).

(** The fixed deadline of line 82, in milliseconds. *)
Definition deadline : N := 5000.

(** Lines 80-83: [await Promise.race([supabase.auth.getUser(token), timer])].
    The lookup is started (and recorded); the race settles with whichever
    promise settles first, the timer rejecting with 'Supabase Timeout'. *)
Definition race_getUser (w : world) (token : string) : M UserResponse :=
  fun fx =>
    let fx' := mkEffects (console fx) (getUser_calls fx ++ [token])
                         (userEmail fx) (next_calls fx) (sent fx) in
    let l := getUser w token in
    let timeout := JS.newError "Supabase Timeout" in
    match settles_after l with
    | None => (inl timeout, fx')
    | Some t =>
        if (t <? deadline)%N then (settles_to l, fx')
        else if (t =? deadline)%N && negb (timer_first_on_tie w) then (settles_to l, fx')
        else (inl timeout, fx')
    end.

(** Line 76: [req.headers.authorization?.split(' ')[1]]. *)
Definition token_of (req : request) : option string :=
  match authorization req with
  | None => None
  | Some h => nth_error (JS.split " " h) 1
  end.

(** The two 401 bodies of the file. *)
Definition no_token_reply : reply :=
  mkReply 401 [("error", VString "No token provided")].

Definition authentication_failed_reply : reply :=
  mkReply 401 [("success", VBool false); ("error", VString "Authentication failed.")].

(** Lines 75-90: the [try] block. *)
Definition requireAuth_try (w : world) (req : request) : M unit :=
  match token_of req with
  | None => res_status_json 401 [("error", VString "No token provided")]
  | Some token =>
      if negb (JS.truthy token) then
        res_status_json 401 [("error", VString "No token provided")]
      else
        r <- race_getUser w token ;;
        match error r, user r with
        | None, Some u => set_userEmail (email u) ;; next
        | _, _ => raise (JS.newError "Invalid token")
        end
  end.

(** Lines 91-94: the [catch] block. *)
Definition requireAuth_catch (err : JS.Error) : M unit :=
  console_write ("Auth Error: " ++ JS.message err) ;;
  res_status_json 401 [("success", VBool false); ("error", VString "Authentication failed.")].

(** Lines 66-95. *)
Definition requireAuth (bypass : bool) (w : world) (req : request) : M unit :=
  if bypass then
    (* the warning sign that opens the line in the source is left out *)
    console_write "DEV MODE: Bypassing Supabase Auth" ;;
    set_userEmail "test@dev.com" ;;
    next
  else
    catch (requireAuth_try w req) requireAuth_catch.

(** One request through the middleware, from a fresh [req] and [res]. *)
Definition handle (bypass : bool) (w : world) (req : request) : JS.completion unit * effects :=
  requireAuth bypass w req untouched.

(** The settled value of the race of lines 80-83 for [token]. *)
Definition race_result (w : world) (token : string) : JS.completion UserResponse :=
  fst (race_getUser w token untouched).

(** A request with no usable credential: no authorization header, a header
    with no space in it, or a header whose text after the first space is
    empty or starts with another space. *)
Inductive no_credential : request -> Prop :=
| header_absent : no_credential (mkRequest None)
| header_one_field (h : string) :
    JS.contains " " h = false -> no_credential (mkRequest (Some h))
| header_empty_field (scheme rest : string) :
    JS.contains " " scheme = false ->
    rest = EmptyString \/ (exists r, rest = String " " r) ->
    no_credential (mkRequest (Some (scheme ++ String " " rest))).

(** The lookup has not settled when the deadline passes. *)
Definition misses_deadline (l : lookup) : Prop :=
  match settles_after l with
  | None => True
  | Some t => (deadline < t)%N
  end.

(** The race did not produce a user: the timer won, the provider rejected,
    or it fulfilled with an error or without a user. *)
Definition lookup_failed (outcome : JS.completion UserResponse) : Prop :=
  match outcome with
  | inl _ => True
  | inr r => error r <> None \/ user r = None
  end.

End Server.


(** ** Concrete worlds used by the examples below *)
Module Scenario.
Import Search.

(** An [encodeURIComponent] that has nothing to escape. *)
Definition encode (s : string) : JS.completion string := inr s.

(** A provider that answers every request with status 200 and body [d]. *)
Definition answers (d : json) : string -> list (string * string) -> JS.completion Response :=
  fun _ _ => inr (mkResponse true 200 (inr d)).

(** A provider that answers with status [code] and no usable body. *)
Definition refuses (code : nat) : string -> list (string * string) -> JS.completion Response :=
  fun _ _ => inr (mkResponse false code (inl (JS.mkErr "SyntaxError" "Unexpected token <"))).

(** An instant answer whose only text is too short to pass the filter. *)
Definition short_abstract : json :=
  JObject (mkObject (Some "Too short") (Some []) None).

(** An abstract and three related topics, all longer than the threshold. *)
Definition photosynthesis : json :=
  JObject (mkObject
    (Some "Photosynthesis converts light energy into chemical energy.")
    (Some [Topic (Some "Chloroplasts are the site of photosynthesis in plants.");
           Topic (Some "The Calvin cycle fixes carbon dioxide into sugars.");
           Topic (Some "Cyanobacteria were the first oxygenic phototrophs.")])
    None).

(** A mixed answer: one short topic between two long ones. *)
Definition mixed : json :=
  JObject (mkObject
    (Some "Photosynthesis converts light energy into chemical energy.")
    (Some [Topic (Some "Leaf"); Topic None;
           Topic (Some "The Calvin cycle fixes carbon dioxide into sugars.")])
    None).

(** An encyclopedia answer with one short hit. *)
Definition one_short_hit : json :=
  JObject (mkObject None None (Some (mkQuery (Some [Hit (Some "A") (Some "<i>b</i>")])))).

(** An identity provider that resolves every token to one user, quickly. *)
Definition provider_accepts : Server.world :=
  Server.mkWorld
    (fun _ => Server.mkLookup (Some 120%N)
                (inr (Server.mkUserResponse (Some (Server.mkUser "ada@example.org")) None)))
    false.

(** One that would resolve the token, but only after nine seconds. *)
Definition provider_slow : Server.world :=
  Server.mkWorld
    (fun _ => Server.mkLookup (Some 9000%N)
                (inr (Server.mkUserResponse (Some (Server.mkUser "ada@example.org")) None)))
    false.

(** One that answers quickly that the token is not valid. *)
Definition provider_rejects : Server.world :=
  Server.mkWorld
    (fun _ => Server.mkLookup (Some 80%N)
                (inr (Server.mkUserResponse None (Some "invalid JWT"))))
    false.

End Scenario.

(** ** src/server.js: the routes behind [requireAuth] (lines 106-150) *)
Module Routes.

Section Store.

(** JSON values carried by a request body, and documents as the store's
    models hold and serialise them: the routes pass both through unread. *)
Variable V : Type.
Variable Doc : Type.

(** [req.body] once parsed: a JSON object read by key. *)
Definition Body : Type := string -> option V.

(** [req] as the routes read it: the headers [requireAuth] looks at and
    the body ([None] when [req.body] is [undefined]). *)
Record http_request : Type := mkHttp {
  headers : Server.request;
  req_body : option Body
}.

(** The object handed to [new Note(...)] (lines 109-112). *)
Record NoteInput : Type := mkNoteInput {
  note_email : option string;
  title : option V;
  smart_notes : option V;
  mcq_json : option V;
  pages : option V
}.

(** The object handed to [new CareerReport(...)] (lines 133-135). *)
Record CareerInput : Type := mkCareerInput {
  career_email : option string;
  role : option V;
  report_html : option V
}.

(** The record store, one settled answer per operation the routes perform:
    [new M(x)] followed by [save()] (the document as it stands afterwards,
    or the rejection), and [M.find({ email }).sort({ createdAt: -1 })].
    An operation that never settles (the request then stays unanswered)
    is outside this record, as is what [express.json()] does with a body
    it cannot parse before the routes are reached. *)
Record store : Type := mkStore {
  Note_save : NoteInput -> JS.completion Doc;
  Note_find : option string -> JS.completion (list Doc);
  CareerReport_save : CareerInput -> JS.completion Doc;
  CareerReport_find : option string -> JS.completion (list Doc)
}.

(** The store operations a request performed. *)
Inductive store_call : Type :=
| SaveNote (x : NoteInput)
| FindNotes (email : option string)
| SaveCareerReport (x : CareerInput)
| FindCareerReports (email : option string).

(** What is passed to [res.json]. *)
Inductive payload : Type :=
| Fields (fields : list (string * Server.value))   (* an object of flags and texts *)
| NoteCreated (note : Doc)                         (* [{ success: true, note }] *)
| Documents (found : list Doc).                    (* an array of documents *)

Record response : Type := mkResponse { code : nat; content : payload }.

Record trace : Type := mkTrace {
  store_calls : list store_call;
  responses : list response
}.

(** A route handler: store calls and responses survive a throw. *)
Definition R (A : Type) : Type := trace -> JS.completion A * trace.

#[local] Instance Monad_R : Monad R := {
  ret := fun _ a tr => (inr a, tr);
  bind := fun _ _ c k tr =>
    match c tr with
    | (inl e, tr') => (inl e, tr')
    | (inr a, tr') => k a tr'
    end
}.

#[local] Instance Exception_R : MonadExc JS.Error R := {
  raise := fun _ e tr => (inl e, tr);
  catch := fun _ c h tr =>
    match c tr with
    | (inl e, tr') => h e tr'
    | (inr a, tr') => (inr a, tr')
    end
}.

(** An awaited store operation, recorded with its outcome. *)
Definition await_store {A : Type} (c : store_call) (outcome : JS.completion A) : R A :=
  fun tr => (outcome, mkTrace (store_calls tr ++ [c]) (responses tr)).

(** [res.json(p)]: status 200. *)
Definition res_json (p : payload) : R unit :=
  fun tr => (inr tt, mkTrace (store_calls tr) (responses tr ++ [mkResponse 200 p])).

(** [res.status(c).json(p)]. *)
Definition res_status_json (c : nat) (p : payload) : R unit :=
  fun tr => (inr tt, mkTrace (store_calls tr) (responses tr ++ [mkResponse c p])).

(** [const { first, ... } = req.body]: throws when the body is [undefined]. *)
Definition destructure (first : string) (b : option Body) : R Body :=
  match b with
  | Some fields => ret fields
  | None =>
      raise (JS.TypeError ("Cannot destructure property '" ++ first
                             ++ "' of 'req.body' as it is undefined."))
  end.

(** The [catch] block shared, word for word, by the four routes
    (lines 115-117, 124-126, 138-140, 147-149). *)
Definition route_catch (error : JS.Error) : R unit :=
  res_status_json 500
    (Fields [("success", Server.VBool false); ("error", Server.VString (JS.message error))]).

(** Lines 106-118: POST /api/notes. *)
Definition post_notes_try (st : store) (userEmail : option string) (b : option Body) : R unit :=
  fields <- destructure "title" b ;;
  let x := mkNoteInput userEmail (fields "title") (fields "smart_notes")
                       (fields "mcq_json") (fields "pages") in
  newNote <- await_store (SaveNote x) (Note_save st x) ;;
  res_json (NoteCreated newNote).

Definition post_notes (st : store) (userEmail : option string) (b : option Body) : R unit :=
  catch (post_notes_try st userEmail b) route_catch.

(** Lines 120-127: GET /api/notes. *)
Definition get_notes_try (st : store) (userEmail : option string) : R unit :=
  notes <- await_store (FindNotes userEmail) (Note_find st userEmail) ;;
  res_json (Documents notes).

Definition get_notes (st : store) (userEmail : option string) (b : option Body) : R unit :=
  catch (get_notes_try st userEmail) route_catch.

(** Lines 130-141: POST /api/career. *)
Definition post_career_try (st : store) (userEmail : option string) (b : option Body) : R unit :=
  fields <- destructure "role" b ;;
  let x := mkCareerInput userEmail (fields "role") (fields "report_html") in
  _ <- await_store (SaveCareerReport x) (CareerReport_save st x) ;;
  res_json (Fields [("success", Server.VBool true)]).

Definition post_career (st : store) (userEmail : option string) (b : option Body) : R unit :=
  catch (post_career_try st userEmail b) route_catch.

(** Lines 143-150: GET /api/career. *)
Definition get_career_try (st : store) (userEmail : option string) : R unit :=
  reports <- await_store (FindCareerReports userEmail) (CareerReport_find st userEmail) ;;
  res_json (Documents reports).

Definition get_career (st : store) (userEmail : option string) (b : option Body) : R unit :=
  catch (get_career_try st userEmail) route_catch.

(** A 401 of [requireAuth] as a response. *)
Definition of_reply (r : Server.reply) : response :=
  mkResponse (Server.status r) (Fields (Server.body r)).

(** [app.METHOD(path, requireAuth, handler)]: the handler runs, with the
    [req] the middleware left, only when the middleware called [next]. *)
Definition behind_requireAuth (bypass : bool) (w : Server.world) (req : http_request)
           (handler : option string -> option Body -> R unit)
  : Server.effects * (JS.completion unit * trace) :=
  let fx := snd (Server.handle bypass w (headers req)) in
  let answered := mkTrace [] (map of_reply (Server.sent fx)) in
  match Server.next_calls fx with
  | O => (fx, (inr tt, answered))
  | S _ => (fx, handler (Server.userEmail fx) (req_body req) answered)
  end.

(** The four routes of the file. *)
Inductive route : Type :=
| POST_api_notes
| GET_api_notes
| POST_api_career
| GET_api_career.

Definition handler_of (st : store) (r : route) : option string -> option Body -> R unit :=
  match r with
  | POST_api_notes => post_notes st
  | GET_api_notes => get_notes st
  | POST_api_career => post_career st
  | GET_api_career => get_career st
  end.

Definition serve (bypass : bool) (w : Server.world) (st : store) (r : route)
           (req : http_request)
  : Server.effects * (JS.completion unit * trace) :=
  behind_requireAuth bypass w req (handler_of st r).

End Store.

Arguments mkHttp {V}.
Arguments headers {V}.
Arguments req_body {V}.
Arguments mkNoteInput {V}.
Arguments note_email {V}.
Arguments title {V}.
Arguments smart_notes {V}.
Arguments mcq_json {V}.
Arguments pages {V}.
Arguments mkCareerInput {V}.
Arguments career_email {V}.
Arguments role {V}.
Arguments report_html {V}.
Arguments mkStore {V Doc}.
Arguments Note_save {V Doc}.
Arguments Note_find {V Doc}.
Arguments CareerReport_save {V Doc}.
Arguments CareerReport_find {V Doc}.
Arguments SaveNote {V}.
Arguments FindNotes {V}.
Arguments SaveCareerReport {V}.
Arguments FindCareerReports {V}.
Arguments Fields {Doc}.
Arguments NoteCreated {Doc}.
Arguments Documents {Doc}.
Arguments mkResponse {Doc}.
Arguments code {Doc}.
Arguments content {Doc}.
Arguments mkTrace {V Doc}.
Arguments store_calls {V Doc}.
Arguments responses {V Doc}.
Arguments post_notes {V Doc}.
Arguments get_notes {V Doc}.
Arguments post_career {V Doc}.
Arguments get_career {V Doc}.
Arguments of_reply {Doc}.
Arguments behind_requireAuth {V Doc}.
Arguments handler_of {V Doc}.
Arguments serve {V Doc}.

End Routes.

(** ** Readings of the search pipeline used to state its properties *)
Module Reading.
Import Search.

(** The abstract as a candidate list: itself when non-empty. *)
Definition abstract_texts (o : json_object) : list string :=
  match Abstract o with
  | Some a => if JS.truthy a then [a] else []
  | None => []
  end.

Definition is_null_topic (t : topic) : bool :=
  match t with
  | TopicNull => true
  | Topic _ => false
  end.

(** The non-empty texts of a list of topics, in order. *)
Fixpoint topic_texts (topics : list topic) : list string :=
  match topics with
  | [] => []
  | Topic (Some t) :: rest => if JS.truthy t then t :: topic_texts rest else topic_texts rest
  | _ :: rest => topic_texts rest
  end.

(** The related topics the [forEach] of line 43 visits. *)
Definition visited_topics (o : json_object) (maxResults : Z) : list topic :=
  match RelatedTopics o with
  | Some topics => JS.slice0 topics maxResults
  | None => []
  end.

(** Is some '<' of [s] followed, anywhere later, by a '>'?  (That is: does
    the pattern [<[^>]*>] match somewhere in [s]?) *)
Fixpoint has_tag (s : string) : bool :=
  match s with
  | EmptyString => false
  | String a rest => (Ascii.eqb a "<" && JS.contains ">" rest) || has_tag rest
  end.

(** A search hit the callback of line 130 can format: an object with a
    snippet text. *)
Definition formattable (h : hit) : bool :=
  match h with
  | Hit _ (Some _) => true
  | _ => false
  end.

(** The entry line 130 builds for the hit at index [idx]. *)
Definition hit_entry (idx : nat) (h : hit) : string :=
  match h with
  | Hit title (Some s) =>
      "[" ++ JS.decimal (idx + 1) ++ "] "
          ++ match title with Some t => t | None => "undefined" end
          ++ ": " ++ JS.strip_tags s
  | _ => EmptyString
  end.

(** The request for [query] succeeded and its body decoded to [data]:
    the query was encoded, [fetch] fulfilled with a success status, and
    [response.json()] fulfilled with [data]. *)
Definition decoded (encodeURIComponent : string -> JS.completion string)
           (fetch : string -> list (string * string) -> JS.completion Response)
           (url_of : string -> string) (request_headers : list (string * string))
           (query : string) (data : json) : Prop :=
  exists u response,
    encodeURIComponent query = inr u /\
    fetch (url_of u) request_headers = inr response /\
    resp_ok response = true /\
    resp_json response = inr data.

End Reading.

(** ** More concrete worlds for the search client *)
Module SearchScenario.
Import Search.

(** Two hits, one with markup in its snippet and one without a title. *)
Definition two_hits : list hit :=
  [Hit (Some "Cell") (Some "The <span>cell</span> is the unit of life");
   Hit None (Some "plain")].


Definition found (hits : list hit) : json :=
  JObject (mkObject None None (Some (mkQuery (Some hits)))).

(** A [fetch] that the timer aborts. *)
Definition aborted : string -> list (string * string) -> JS.completion Response :=
  fun _ _ => inl (JS.mkErr "AbortError" "The operation was aborted.").

(** An instant answer whose second related topic is [null]. *)
Definition null_topic : json_object :=
  mkObject (Some "Photosynthesis converts light energy into chemical energy.")
           (Some [Topic (Some "Leaf"); TopicNull]) None.

(** The instant answer of [Scenario.photosynthesis], as an object. *)
Definition photosynthesis_object : json_object :=
  mkObject
    (Some "Photosynthesis converts light energy into chemical energy.")
    (Some [Topic (Some "Chloroplasts are the site of photosynthesis in plants.");
           Topic (Some "The Calvin cycle fixes carbon dioxide into sugars.");
           Topic (Some "Cyanobacteria were the first oxygenic phototrophs.")])
    None.

End SearchScenario.

(** ** More concrete worlds *)
Module RouteScenario.

(** A store that accepts every write (the document is the owner's email)
    and finds nothing. *)
Definition store_up : Routes.store string string :=
  Routes.mkStore
    (fun x => inr (match Routes.note_email x with Some e => e | None => "?" end))
    (fun _ => inr [])
    (fun x => inr (match Routes.career_email x with Some e => e | None => "?" end))
    (fun _ => inr []).

(** A store whose every operation rejects. *)
Definition store_down : Routes.store string string :=
  let lost := JS.newError "connection lost" in
  Routes.mkStore
    (fun _ => inl lost) (fun _ => inl lost) (fun _ => inl lost) (fun _ => inl lost).

(** A body that names a title and, uninvited, an owner. *)
Definition body_with_email : Routes.Body string :=
  fun key =>
    if String.eqb key "title" then Some "Cell biology"
    else if String.eqb key "email" then Some "mallory@example.org"
    else None.

Definition request_with (authorization : option string) : Routes.http_request string :=
  Routes.mkHttp (Server.mkRequest authorization) (Some body_with_email).

(** The same request without a body. *)
Definition request_without_body (authorization : option string)
  : Routes.http_request string :=
  Routes.mkHttp (Server.mkRequest authorization) None.

End RouteScenario.

(** ** src/search.js, with a body read that may never settle

    [webSearch] and [searchWikipedia] clear their 10-second timer (lines 25
    and 117) as soon as [fetch] has fulfilled, and only then await
    [response.json()] (lines 31 and 123).  [fetch] itself always settles
    (the timer aborts it), but nothing bounds the body read.  Here the
    three functions are embedded once more, statement by statement, over
    promises that may stay pending; [Search] above is the part of this
    embedding in which every body read settles. *)
Module Awaited.
Import Search.

(** What [await p] meets. *)
Inductive promise (A : Type) : Type :=
| Fulfilled (a : A)
| Rejected (e : JS.Error)
| Pending.

Arguments Fulfilled {A}.
Arguments Rejected {A}.
Arguments Pending {A}.

(** A computation that has settled, as a promise. *)
Definition settled {A : Type} (c : JS.completion A) : promise A :=
  match c with
  | inr a => Fulfilled a
  | inl e => Rejected e
  end.

(** [await] in sequence: what follows a pending promise never runs. *)
#[local] Instance Monad_promise : Monad promise := {
  ret := fun _ a => Fulfilled a;
  bind := fun _ _ p k =>
    match p with
    | Fulfilled a => k a
    | Rejected e => Rejected e
    | Pending => Pending
    end
}.

(** [try { p } catch (error) { h }]: the handler runs on a rejection only. *)
#[local] Instance Exception_promise : MonadExc JS.Error promise := {
  raise := fun _ e => Rejected e;
  catch := fun _ p h =>
    match p with
    | Rejected e => h e
    | other => other
    end
}.

(** node-fetch's [Response] with the promise [json()] returns. *)
Record Response : Type := mkResponse {
  resp_ok : bool;
  resp_status : nat;
  resp_json : promise json
}.

(** A response of [Search], whose body read has settled. *)
Definition read (r : Search.Response) : Response :=
  mkResponse (Search.resp_ok r) (Search.resp_status r) (settled (Search.resp_json r)).

Section Client.

Variable encodeURIComponent : string -> JS.completion string.
(** [fetch] under the abort signal: fulfilled, or rejected (by the network
    or, after 10 seconds, by the abort). *)
Variable fetch : string -> list (string * string) -> JS.completion Response.

(** Lines 13-72. *)
Definition webSearch_try (query : string) (maxResults : Z) : promise SnippetResult :=
  q <- settled (encodeURIComponent query) ;;
  let url := webSearch_url q in
  response <- settled (fetch url webSearch_headers) ;;
  (if negb (resp_ok response)
   then raise (JS.newError ("Search API returned " ++ JS.decimal (resp_status response)))
   else ret tt) ;;
  data <- resp_json response ;;
  snippets <- settled (collect data maxResults) ;;
  if (length snippets =? 0)%nat then
    ret (mkResult true None None (Some "No search results found"))
  else
    ret (mkResult true (Some (formattedSnippets snippets maxResults)) None None).

(** Lines 9-90. *)
Definition webSearch (query : string) (maxResults : Z) : promise SnippetResult :=
  catch (webSearch_try query maxResults) (fun error => settled (webSearch_catch error)).

(** Lines 94-101. *)
Definition checkSearchHealth : promise Health :=
  catch (result <- webSearch "test" 1 ;; ret (mkHealth (ok result) None))
        (fun error => ret (mkHealth false (Some (JS.message error)))).

(** Lines 110-134. *)
Definition searchWikipedia_try (query : string) : promise SnippetResult :=
  q <- settled (encodeURIComponent query) ;;
  let url := searchWikipedia_url q in
  response <- settled (fetch url []) ;;
  (if negb (resp_ok response)
   then raise (JS.newError "Wikipedia API failed")
   else ret tt) ;;
  data <- resp_json response ;;
  found <- settled (query_search data) ;;
  match found with
  | None => ret (mkResult true None None None)
  | Some [] => ret (mkResult true None None None)
  | Some results =>
      entries <- settled (map_hits 0 results) ;;
      ret (mkResult true (Some (JS.join JS.blank_line entries)) None None)
  end.

(** Lines 109-139. *)
Definition searchWikipedia (query : string) : promise SnippetResult :=
  catch (searchWikipedia_try query) (fun error => settled (searchWikipedia_catch error)).

(** The request for [query] got a success status and its body read never
    settles. *)
Definition body_stalls (url_of : string -> string) (request_headers : list (string * string))
           (query : string) : Prop :=
  exists u response,
    encodeURIComponent query = inr u /\
    fetch (url_of u) request_headers = inr response /\
    resp_ok response = true /\
    resp_json response = Pending.

End Client.

(** A [fetch] of [Search], all of whose body reads have settled. *)
Definition reads (fetch : string -> list (string * string) -> JS.completion Search.Response)
  : string -> list (string * string) -> JS.completion Response :=
  fun url request_headers =>
    match fetch url request_headers with
    | inr r => inr (read r)
    | inl e => inl e
    end.

(** A provider that sends a 200 head and never completes the body. *)
Definition stalled : string -> list (string * string) -> JS.completion Response :=
  fun _ _ => inr (mkResponse true 200 Pending).

End Awaited.

(** ** The credential of the specification

    The specification's words for the credential: a bearer credential in
    the authorization header.  A header is well formed when it is
    'Bearer <token>' with a non-empty token free of spaces; a request
    whose header is absent or not of that form has a missing or garbled
    credential. *)
Module Credential.

Definition bearer_header (h : string) : bool :=
  String.prefix "Bearer " h &&
  (let token := String.substring 7 (String.length h - 7) h in
   JS.truthy token && negb (JS.contains " " token)).

Definition missing_or_garbled (req : Server.request) : bool :=
  match Server.authorization req with
  | None => true
  | Some h => negb (bearer_header h)
  end.

End Credential.

(** ** Facts about the built-ins *)
Section BuiltinFacts.

Lemma length_append (s t : string) :
  String.length (s ++ t) = String.length s + String.length t.
Proof.
  induction s as [|a s IH]; simpl; [reflexivity | now rewrite IH].
Qed.

Lemma length_mapi_from {A B : Type} (f : nat -> A -> B) (arr : list A) :
  forall i, length (JS.mapi_from f i arr) = length arr.
Proof.
  induction arr as [|x rest IH]; intros i; simpl; [reflexivity | now rewrite IH].
Qed.

Lemma nth_error_mapi_from {A B : Type} (f : nat -> A -> B) (arr : list A) :
  forall i k, nth_error (JS.mapi_from f i arr) k = option_map (f (i + k)) (nth_error arr k).
Proof.
  induction arr as [|x rest IH]; intros i k.
  - destruct k; reflexivity.
  - destruct k as [|k]; simpl.
    + now rewrite Nat.add_0_r.
    + rewrite IH. now rewrite Nat.add_succ_r.
Qed.

Lemma nth_error_mapi {A B : Type} (f : nat -> A -> B) (arr : list A) (k : nat) :
  nth_error (JS.mapi f arr) k = option_map (f k) (nth_error arr k).
Proof. unfold JS.mapi. now rewrite nth_error_mapi_from. Qed.

(** [slice(0, e)] always takes a prefix of the array. *)
Lemma slice0_prefix {A : Type} (arr : list A) (e : Z) :
  exists k, JS.slice0 arr e = firstn k arr.
Proof. unfold JS.slice0. eexists. reflexivity. Qed.

(** For a non-negative end it takes the first [e] elements. *)
Lemma slice0_firstn {A : Type} (arr : list A) (e : Z) :
  (0 <= e)%Z -> JS.slice0 arr e = firstn (Z.to_nat e) arr.
Proof.
  intros He. unfold JS.slice0.
  destruct (Z.ltb_spec e 0) as [Hneg|_]; [lia|].
  destruct (Z.le_ge_cases e (Z.of_nat (length arr))) as [Hle|Hge].
  - now rewrite Z.min_l by assumption.
  - rewrite Z.min_r by assumption. rewrite Nat2Z.id.
    rewrite firstn_all. symmetry. apply firstn_all2. lia.
Qed.

Lemma length_slice0 {A : Type} (arr : list A) (e : Z) :
  (0 <= e)%Z -> (length (JS.slice0 arr e) <= Z.to_nat e)%nat.
Proof. intros He. rewrite slice0_firstn by assumption. apply firstn_le_length. Qed.

Lemma nth_error_slice0 {A : Type} (arr : list A) (e : Z) (i : nat) (x : A) :
  nth_error (JS.slice0 arr e) i = Some x -> nth_error arr i = Some x.
Proof.
  destruct (slice0_prefix arr e) as [k ->]. rewrite nth_error_firstn.
  destruct (i <? k)%nat; [trivial | discriminate].
Qed.

Lemma filter_none {A : Type} (f : A -> bool) (arr : list A) :
  (forall x, In x arr -> f x = false) -> filter f arr = [].
Proof.
  induction arr as [|x rest IH]; intros H; simpl; [reflexivity|].
  rewrite (H x (or_introl eq_refl)). apply IH.
  intros y Hy. apply H. now right.
Qed.

Lemma split_cons (c : ascii) (s : string) :
  exists first others, JS.split c s = first :: others.
Proof.
  destruct s as [|a rest]; simpl; [now eauto|].
  destruct (Ascii.eqb a c); [now eauto|].
  destruct (JS.split c rest); eauto.
Qed.

(** A string without the separator is the only field of its split. *)
Lemma split_without (c : ascii) (s : string) :
  JS.contains c s = false -> JS.split c s = [s].
Proof.
  induction s as [|a rest IH]; simpl; intros H; [reflexivity|].
  apply orb_false_iff in H as [Ha Hrest].
  rewrite Ha, (IH Hrest). reflexivity.
Qed.

(** The first field ends at the first separator. *)
Lemma split_append (c : ascii) (s t : string) :
  JS.contains c s = false ->
  JS.split c (s ++ String c t) = s :: JS.split c t.
Proof.
  induction s as [|a rest IH]; simpl; intros H.
  - now rewrite Ascii.eqb_refl.
  - apply orb_false_iff in H as [Ha Hrest].
    rewrite Ha, (IH Hrest). reflexivity.
Qed.

End BuiltinFacts.

(** ** The pure steps of the search client *)
Section PipelineFacts.
Import Search.

Lemma long_enough_length (s : string) :
  long_enough s = true <-> (minimum_length < String.length s)%nat.
Proof.
  unfold long_enough, minimum_length. rewrite andb_true_iff, Nat.ltb_lt.
  split; [tauto|]. intros H. split; [|exact H].
  destruct s; [simpl in H; lia | reflexivity].
Qed.

Lemma length_format_snippet (idx : nat) (snippet : string) :
  String.length (format_snippet idx snippet) =
  (3 + String.length (JS.decimal (idx + 1)) + String.length snippet)%nat.
Proof.
  unfold format_snippet. simpl. rewrite !length_append. simpl. lia.
Qed.

(** Every formatted entry comes from the candidate that stands at the same
    place among those that passed the filter. *)
Lemma formatEntries_nth (snippets : list string) (maxResults : Z) (i : nat) (e : string) :
  nth_error (formatEntries snippets maxResults) i = Some e ->
  exists s, nth_error (filter long_enough snippets) i = Some s /\
            e = format_snippet i s.
Proof.
  unfold formatEntries. rewrite nth_error_mapi.
  destruct (nth_error (JS.slice0 (filter long_enough snippets) maxResults) i)
    as [s|] eqn:Hs; simpl; [|discriminate].
  intros [= <-]. exists s. split; [|reflexivity].
  now apply nth_error_slice0 with (e := maxResults).
Qed.

Lemma formatEntries_long (snippets : list string) (maxResults : Z) :
  Forall (fun e => (minimum_length < String.length e)%nat)
         (formatEntries snippets maxResults).
Proof.
  apply Forall_forall. intros e He.
  apply In_nth_error in He as [i Hi].
  apply formatEntries_nth in Hi as (s & Hs & ->).
  apply nth_error_In, filter_In in Hs as [_ Hs].
  apply long_enough_length in Hs. rewrite length_format_snippet. lia.
Qed.

Lemma length_formatEntries (snippets : list string) (maxResults : Z) :
  (0 <= maxResults)%Z ->
  (length (formatEntries snippets maxResults) <= Z.to_nat maxResults)%nat.
Proof.
  intros Hn. unfold formatEntries, JS.mapi. rewrite length_mapi_from.
  now apply length_slice0.
Qed.

Lemma formatEntries_nil (maxResults : Z) : formatEntries [] maxResults = [].
Proof.
  unfold formatEntries. simpl.
  destruct (slice0_prefix (@nil string) maxResults) as [k ->].
  now rewrite firstn_nil.
Qed.

(** The entries of a successful [map_hits]: one per hit, each opening
    with a bracket. *)
Lemma map_hits_entries (results : list hit) :
  forall idx entries, map_hits idx results = inr entries ->
  length entries = length results /\
  Forall (fun e => exists rest, e = String "[" rest) entries.
Proof.
  induction results as [|r rest IH]; intros idx entries; simpl.
  - intros [= <-]. split; [reflexivity | constructor].
  - destruct (format_hit idx r) as [err|e] eqn:He; [discriminate|].
    destruct (map_hits (S idx) rest) as [err|es] eqn:Hes; [discriminate|].
    intros [= <-]. destruct (IH _ _ Hes) as [Hlen Hall].
    split; [simpl; now rewrite Hlen|].
    constructor; [|exact Hall].
    unfold format_hit in He. destruct r as [|title [s|]]; try discriminate.
    injection He as <-. simpl. eauto.
Qed.

Lemma join_opening (sep e : string) (es : list string) (rest : string) :
  e = String "[" rest -> JS.join sep (e :: es) <> EmptyString.
Proof.
  intros ->. unfold JS.join. destruct es; simpl; discriminate.
Qed.

End PipelineFacts.

(** ** The search client *)
Section SearchFacts.
Import Search.

Variable encodeURIComponent : string -> JS.completion string.
Variable fetch : string -> list (string * string) -> JS.completion Response.

Local Abbreviation webSearch := (Search.webSearch encodeURIComponent fetch).
Local Abbreviation webSearch_try := (Search.webSearch_try encodeURIComponent fetch).
Local Abbreviation webSearch_collect := (Search.webSearch_collect encodeURIComponent fetch).
Local Abbreviation webSearch_entries := (Search.webSearch_entries encodeURIComponent fetch).
Local Abbreviation searchWikipedia := (Search.searchWikipedia encodeURIComponent fetch).
Local Abbreviation searchWikipedia_try := (Search.searchWikipedia_try encodeURIComponent fetch).
Local Abbreviation searchWikipedia_found := (Search.searchWikipedia_found encodeURIComponent fetch).
Local Abbreviation searchWikipedia_entries := (Search.searchWikipedia_entries encodeURIComponent fetch).
Local Abbreviation checkSearchHealth := (Search.checkSearchHealth encodeURIComponent fetch).
Local Abbreviation checkSearchHealth_try := (Search.checkSearchHealth_try encodeURIComponent fetch).

(** [webSearch], case by case on what the first half of its [try] block
    produced. *)
Lemma webSearch_cases (query : string) (maxResults : Z) :
  webSearch query maxResults =
  match webSearch_collect query maxResults with
  | inl e => webSearch_catch e
  | inr [] => inr (mkResult true None None (Some "No search results found"))
  | inr snippets =>
      inr (mkResult true (Some (formattedSnippets snippets maxResults)) None None)
  end.
Proof.
  unfold Search.webSearch, Search.webSearch_try. simpl.
  destruct (webSearch_collect query maxResults) as [e|[|c cs]]; reflexivity.
Qed.

Lemma webSearch_catch_shape (e : JS.Error) :
  exists m, webSearch_catch e = inr (mkResult false None (Some m) None).
Proof.
  unfold webSearch_catch. destruct (JS.name e =? "AbortError"); simpl; eauto.
Qed.

Lemma webSearch_try_cases (query : string) (maxResults : Z) :
  webSearch_try query maxResults =
  match webSearch_collect query maxResults with
  | inl e => inl e
  | inr [] => inr (mkResult true None None (Some "No search results found"))
  | inr snippets =>
      inr (mkResult true (Some (formattedSnippets snippets maxResults)) None None)
  end.
Proof.
  unfold Search.webSearch_try. simpl.
  destruct (webSearch_collect query maxResults) as [e|[|c cs]]; reflexivity.
Qed.

(** A failed request makes the first half of the [try] block throw. *)
Lemma webSearch_collect_fails (query u : string) (maxResults : Z) :
  encodeURIComponent query = inr u ->
  request_fails (fetch (webSearch_url u) webSearch_headers) ->
  exists e, webSearch_collect query maxResults = inl e.
Proof.
  intros Hu Hfail. unfold Search.webSearch_collect. simpl. rewrite Hu.
  destruct (fetch (webSearch_url u) webSearch_headers) as [e|response]; [eauto|].
  simpl in Hfail. destruct Hfail as [Hok|[e He]].
  - rewrite Hok. simpl. eauto.
  - destruct (resp_ok response); simpl; [|eauto]. rewrite He. eauto.
Qed.

Lemma searchWikipedia_cases (query : string) :
  searchWikipedia query =
  match searchWikipedia_found query with
  | inl e => searchWikipedia_catch e
  | inr None => inr (mkResult true None None None)
  | inr (Some []) => inr (mkResult true None None None)
  | inr (Some results) =>
      match map_hits 0 results with
      | inl e => searchWikipedia_catch e
      | inr entries =>
          inr (mkResult true (Some (JS.join JS.blank_line entries)) None None)
      end
  end.
Proof.
  unfold Search.searchWikipedia, Search.searchWikipedia_try. simpl.
  destruct (searchWikipedia_found query) as [e|[[|r rest]|]]; try reflexivity.
  destruct (map_hits 0 (r :: rest)); reflexivity.
Qed.

Lemma searchWikipedia_found_fails (query u : string) :
  encodeURIComponent query = inr u ->
  request_fails (fetch (searchWikipedia_url u) []) ->
  exists e, searchWikipedia_found query = inl e.
Proof.
  intros Hu Hfail. unfold Search.searchWikipedia_found. simpl. rewrite Hu.
  destruct (fetch (searchWikipedia_url u) []) as [e|response]; [eauto|].
  simpl in Hfail. destruct Hfail as [Hok|[e He]].
  - rewrite Hok. simpl. eauto.
  - destruct (resp_ok response); simpl; [|eauto]. rewrite He. eauto.
Qed.

(** In every world whose body reads settle, [webSearch] and
    [searchWikipedia] return a [SnippetResult]; a result with [ok: false]
    has [snippets: null] and an error message; and every failed request
    (network failure, abort on timeout, non-success status, body that is
    not JSON) gives [ok: false]. *)
Theorem search_never_throws (query : string) (maxResults : Z) :
  (exists r, webSearch query maxResults = inr r /\
     (ok r = false -> snippets r = None /\ exists m, error r = Some m) /\
     (forall u, encodeURIComponent query = inr u ->
        request_fails (fetch (webSearch_url u) webSearch_headers) ->
        ok r = false)) /\
  (exists r, searchWikipedia query = inr r /\
     (ok r = false -> snippets r = None /\ exists m, error r = Some m) /\
     (forall u, encodeURIComponent query = inr u ->
        request_fails (fetch (searchWikipedia_url u) []) ->
        ok r = false)).
Proof.
  split.
  - rewrite webSearch_cases.
    destruct (webSearch_collect query maxResults) as [e|[|c cs]] eqn:Hc.
    + destruct (webSearch_catch_shape e) as [m ->].
      eexists; repeat split; simpl; eauto.
    + eexists; repeat split; simpl; try discriminate.
      intros u Hu Hf. destruct (webSearch_collect_fails query u maxResults Hu Hf).
      congruence.
    + eexists; repeat split; simpl; try discriminate.
      intros u Hu Hf. destruct (webSearch_collect_fails query u maxResults Hu Hf).
      congruence.
  - rewrite searchWikipedia_cases.
    assert (Hfails : forall u, encodeURIComponent query = inr u ->
              request_fails (fetch (searchWikipedia_url u) []) ->
              forall v, searchWikipedia_found query = inr v -> False).
    { intros u Hu Hf v Hv.
      destruct (searchWikipedia_found_fails query u Hu Hf). congruence. }
    destruct (searchWikipedia_found query) as [e|[[|r rest]|]] eqn:Hc.
    + eexists; repeat split; simpl; eauto.
    + eexists; repeat split; simpl; try discriminate.
      intros u Hu Hf. destruct (Hfails u Hu Hf _ eq_refl).
    + destruct (map_hits 0 (r :: rest)) as [e|entries].
      * eexists; repeat split; simpl; eauto.
      * eexists; repeat split; simpl; try discriminate.
        intros u Hu Hf. destruct (Hfails u Hu Hf _ eq_refl).
    + eexists; repeat split; simpl; try discriminate.
      intros u Hu Hf. destruct (Hfails u Hu Hf _ eq_refl).
Qed.

Lemma webSearch_total (query : string) (maxResults : Z) :
  exists r, webSearch query maxResults = inr r.
Proof.
  rewrite webSearch_cases.
  destruct (webSearch_collect query maxResults) as [e|[|c cs]]; eauto.
  destruct (webSearch_catch_shape e) as [m ->]. eauto.
Qed.

(** The text [webSearch] returns is the join of [webSearch_entries]. *)
Lemma webSearch_snippets_entries (query : string) (maxResults : Z)
      (r : SnippetResult) (text : string) :
  webSearch query maxResults = inr r ->
  snippets r = Some text ->
  text = JS.join JS.blank_line (webSearch_entries query maxResults).
Proof.
  rewrite webSearch_cases. unfold Search.webSearch_entries.
  destruct (webSearch_collect query maxResults) as [e|[|c cs]].
  - destruct (webSearch_catch_shape e) as [m ->]. intros [= <-]. discriminate.
  - intros [= <-]. discriminate.
  - intros [= <-]. simpl. intros [= <-]. reflexivity.
Qed.

Lemma webSearch_entries_collect (query : string) (maxResults : Z) (cands : list string) :
  webSearch_collect query maxResults = inr cands ->
  webSearch_entries query maxResults = formatEntries cands maxResults.
Proof.
  unfold Search.webSearch_entries. intros ->.
  destruct cands; [now rewrite formatEntries_nil | reflexivity].
Qed.

Lemma webSearch_entries_long (query : string) (maxResults : Z) :
  Forall (fun e => (minimum_length < String.length e)%nat)
         (webSearch_entries query maxResults).
Proof.
  unfold Search.webSearch_entries.
  destruct (webSearch_collect query maxResults) as [e|[|c cs]];
    try constructor.
  apply formatEntries_long.
Qed.

(** C6. With [maxResults = n] (a count, so [0 <= n]) the text returned by
    [webSearch] joins at most [n] formatted entries, whatever the query
    and the provider's response. *)
Theorem webSearch_result_cap (query : string) (n : Z) :
  (0 <= n)%Z ->
  (length (webSearch_entries query n) <= Z.to_nat n)%nat /\
  (forall r text, webSearch query n = inr r -> snippets r = Some text ->
     text = JS.join JS.blank_line (webSearch_entries query n)).
Proof.
  intros Hn. split.
  - unfold Search.webSearch_entries.
    destruct (webSearch_collect query n) as [e|[|c cs]]; simpl; try lia.
    now apply length_formatEntries.
  - intros r text. apply webSearch_snippets_entries.
Qed.


(** Whenever candidates were collected and none of them is longer than 20
    characters, [webSearch] returns the empty text. *)
Theorem webSearch_filtered_out_text (query : string) (maxResults : Z) (cands : list string) :
  webSearch_collect query maxResults = inr cands ->
  cands <> [] ->
  Forall (fun s => (String.length s <= 20)%nat) cands ->
  webSearch query maxResults = inr (mkResult true (Some EmptyString) None None).
Proof.
  intros Hc Hne Hshort. rewrite webSearch_cases, Hc.
  destruct cands as [|c cs]; [contradiction|].
  unfold formattedSnippets, formatEntries.
  replace (filter long_enough (c :: cs)) with (@nil string).
  - destruct (slice0_prefix (@nil string) maxResults) as [k ->].
    now rewrite firstn_nil.
  - symmetry. apply filter_none. intros s Hs.
    rewrite Forall_forall in Hshort. specialize (Hshort s Hs).
    destruct (long_enough s) eqn:Hl; [|reflexivity].
    apply long_enough_length in Hl. unfold minimum_length in Hl. lia.
Qed.

Lemma searchWikipedia_total (query : string) :
  exists r, searchWikipedia query = inr r.
Proof.
  rewrite searchWikipedia_cases.
  destruct (searchWikipedia_found query) as [e|[[|r rest]|]]; eauto.
  - unfold searchWikipedia_catch. simpl. eauto.
  - destruct (map_hits 0 (r :: rest)); unfold searchWikipedia_catch; simpl; eauto.
Qed.

(** C2, as amended.  For both functions [ok == false] implies
    [snippets == null].  A text returned by [webSearch] joins entries that
    are each longer than the 20-character threshold.  A text returned by
    [searchWikipedia] is non-empty and joins at least one entry (of any
    length). *)
Theorem snippet_result_invariant_by_function (query : string) (maxResults : Z) :
  (exists r, webSearch query maxResults = inr r /\
     (ok r = false -> snippets r = None) /\
     (forall text, snippets r = Some text ->
        text = JS.join JS.blank_line (webSearch_entries query maxResults) /\
        Forall (fun e => (minimum_length < String.length e)%nat)
               (webSearch_entries query maxResults))) /\
  (exists r, searchWikipedia query = inr r /\
     (ok r = false -> snippets r = None) /\
     (forall text, snippets r = Some text ->
        text = JS.join JS.blank_line (searchWikipedia_entries query) /\
        searchWikipedia_entries query <> [] /\
        text <> EmptyString)).
Proof.
  split.
  - destruct (webSearch_total query maxResults) as [r Hr].
    exists r. split; [exact Hr|]. split.
    + revert Hr. rewrite webSearch_cases.
      destruct (webSearch_collect query maxResults) as [e|[|c cs]].
      * destruct (webSearch_catch_shape e) as [m ->]. now intros [= <-].
      * now intros [= <-].
      * intros [= <-]. discriminate.
    + intros text Ht. split.
      * now apply webSearch_snippets_entries with (r := r).
      * apply webSearch_entries_long.
  - rewrite searchWikipedia_cases. unfold Search.searchWikipedia_entries.
    destruct (searchWikipedia_found query) as [e|[[|h rest]|]].
    + eexists. split; [reflexivity|]. simpl. split; [trivial | discriminate].
    + eexists. split; [reflexivity|]. simpl. split; discriminate.
    + destruct (map_hits 0 (h :: rest)) as [e|entries] eqn:Hm.
      * eexists. split; [reflexivity|]. simpl. split; [trivial | discriminate].
      * eexists. split; [reflexivity|]. simpl. split; [discriminate|].
        intros text [= <-]. split; [reflexivity|].
        destruct (map_hits_entries _ _ _ Hm) as [Hlen Hall].
        destruct entries as [|e es]; [discriminate|].
        split; [discriminate|].
        inversion Hall as [|? ? [tail He] _]; subst.
        now apply join_opening with (rest := tail).
    + eexists. split; [reflexivity|]. simpl. split; discriminate.
Qed.


End SearchFacts.

(** ** The authentication gate *)
Section AuthFacts.
Import Server.

(** Line 76 finds no token exactly in the requests of [no_credential]. *)
Lemma no_credential_token (req : request) :
  no_credential req -> token_of req = None \/ token_of req = Some EmptyString.
Proof.
  intros [ | h Hh | scheme rest Hs Hrest ]; unfold token_of; simpl.
  - now left.
  - left. now rewrite split_without.
  - right. rewrite split_append by assumption. simpl.
    destruct Hrest as [-> | [r ->]]; simpl; [reflexivity|].
    reflexivity.
Qed.

(** A header with a space in it splits at its first space. *)
Lemma first_space (h : string) :
  JS.contains " " h = true ->
  exists scheme rest, h = scheme ++ String " " rest /\ JS.contains " " scheme = false.
Proof.
  induction h as [|a h IH]; simpl; [discriminate|].
  destruct (Ascii.eqb_spec a " ") as [-> | Ha]; simpl.
  - intros _. exists EmptyString, h. split; reflexivity.
  - intros H. destruct (IH H) as (scheme & rest & -> & Hs).
    exists (String a scheme), rest. split; [reflexivity|].
    simpl. rewrite Hs. destruct (Ascii.eqb_spec a " "); [contradiction | reflexivity].
Qed.

Lemma token_no_credential (req : request) :
  token_of req = None \/ token_of req = Some EmptyString -> no_credential req.
Proof.
  destruct req as [[h|]]; [|intros _; constructor].
  unfold token_of; simpl.
  destruct (JS.contains " " h) eqn:Hc.
  - destruct (first_space h Hc) as (scheme & rest & -> & Hs).
    rewrite split_append by assumption. simpl.
    intros Ht. apply header_empty_field; [assumption|].
    destruct rest as [|a rest]; [now left|]. right.
    simpl in Ht. destruct (Ascii.eqb_spec a " ") as [-> | Ha]; [eauto|].
    destruct (split_cons " " rest) as (f & o & Hsp). rewrite Hsp in Ht.
    destruct Ht as [Ht|Ht]; discriminate.
  - intros _. now apply header_one_field.
Qed.

(** The run of the normal-mode middleware on a request without a token. *)
Lemma handle_without_token (w : world) (req : request) :
  token_of req = None \/ token_of req = Some EmptyString ->
  handle false w req = (inr tt, mkEffects [] [] None 0 [no_token_reply]).
Proof.
  intros Ht. unfold handle, requireAuth, requireAuth_try. simpl.
  destruct Ht as [-> | ->]; reflexivity.
Qed.

(** The run of the normal-mode middleware on a request with a token, in
    terms of what the race settled to. *)
Lemma handle_with_token (w : world) (req : request) (token : string) :
  token_of req = Some token -> JS.truthy token = true ->
  handle false w req =
  match race_result w token with
  | inl e =>
      (inr tt, mkEffects ["Auth Error: " ++ JS.message e] [token] None 0
                         [authentication_failed_reply])
  | inr r =>
      match error r, user r with
      | None, Some u => (inr tt, mkEffects [] [token] (Some (email u)) 1 [])
      | _, _ =>
          (inr tt, mkEffects ["Auth Error: Invalid token"] [token] None 0
                             [authentication_failed_reply])
      end
  end.
Proof.
  intros Ht Htruthy.
  unfold handle, requireAuth, requireAuth_try, race_result. simpl.
  rewrite Ht, Htruthy. simpl. unfold race_getUser. simpl.
  destruct (settles_after (getUser w token)) as [t|]; [|reflexivity].
  destruct (t <? deadline)%N; [|destruct ((t =? deadline)%N && negb (timer_first_on_tie w))];
    try reflexivity;
    destruct (settles_to (getUser w token)) as [e|[[u|] [m|]]]; reflexivity.
Qed.

(** A lookup that misses the deadline loses the race to the timer. *)
Lemma race_result_late (w : world) (token : string) :
  misses_deadline (getUser w token) ->
  race_result w token = inl (JS.newError "Supabase Timeout").
Proof.
  unfold misses_deadline, race_result, race_getUser. simpl.
  destruct (settles_after (getUser w token)) as [t|]; [|reflexivity].
  intros Hlate.
  destruct (N.ltb_spec t deadline) as [Hlt|_]; [lia|].
  destruct (N.eqb_spec t deadline) as [Heq|_]; [lia|]. reflexivity.
Qed.

(** In normal mode a request with no authorization header, a header of a
    single field, or an empty second field is answered 401 'No token
    provided'; the identity provider is not contacted, [next] is not
    called and no identity is attached. *)
Theorem missing_credential_rejected (w : world) (req : request) :
  no_credential req ->
  handle false w req = (inr tt, mkEffects [] [] None 0 [no_token_reply]).
Proof.
  intros H. apply handle_without_token. now apply no_credential_token.
Qed.

(** C8. In normal mode, when the lookup for the submitted token has not
    settled by the 5-second deadline, the request is answered with the
    authentication-failed reply (the console names the timeout), whatever
    the provider would have settled to. *)
Theorem deadline_exceeded_fails (w : world) (req : request) (token : string) :
  token_of req = Some token -> JS.truthy token = true ->
  misses_deadline (getUser w token) ->
  handle false w req =
  (inr tt, mkEffects ["Auth Error: Supabase Timeout"] [token] None 0
                     [authentication_failed_reply]).
Proof.
  intros Ht Htruthy Hlate.
  rewrite (handle_with_token w req token Ht Htruthy).
  now rewrite race_result_late.
Qed.

(** C3, as amended.  Every cause of a failed lookup (deadline exceeded,
    provider rejection, provider error, no user) is answered with the same
    status-401 'Authentication failed.' reply; a missing credential is
    answered with status 401 too, but with a different body. *)
Theorem authentication_failures_collapse (w : world) (req : request) (token : string) :
  token_of req = Some token -> JS.truthy token = true ->
  lookup_failed (race_result w token) ->
  (exists line,
     handle false w req =
     (inr tt, mkEffects [line] [token] None 0 [authentication_failed_reply])) /\
  status authentication_failed_reply = status no_token_reply /\
  body authentication_failed_reply <> body no_token_reply.
Proof.
  intros Ht Htruthy Hfail. split; [|split; [reflexivity | discriminate]].
  rewrite (handle_with_token w req token Ht Htruthy).
  destruct (race_result w token) as [e|r]; [eauto|].
  simpl in Hfail.
  destruct (error r) as [m|], (user r) as [u|]; eauto.
  destruct Hfail as [H|H]; [now contradiction H | discriminate].
Qed.

(** C9. In bypass mode every request, whatever its authorization header,
    gets the sentinel identity 'test@dev.com' and is passed on to [next];
    the identity provider is not contacted and nothing is sent. *)
Theorem bypass_returns_sentinel (w : world) (req : request) :
  handle (BYPASS_AUTH (Some "true")) w req =
  (inr tt, mkEffects ["DEV MODE: Bypassing Supabase Auth"] []
                     (Some "test@dev.com") 1 []).
Proof. reflexivity. Qed.

(** The requests of [no_credential] are exactly those in which line 76
    finds no token; every other request has its token submitted to the
    identity provider, once. *)
Theorem no_credential_exact (w : world) (req : request) :
  (no_credential req <->
   token_of req = None \/ token_of req = Some EmptyString) /\
  (~ no_credential req ->
   exists token, token_of req = Some token /\
     getUser_calls (snd (handle false w req)) = [token]).
Proof.
  split.
  - split; [apply no_credential_token | apply token_no_credential].
  - intros Hcred. destruct (token_of req) as [[|a token]|] eqn:Ht.
    + destruct Hcred. apply token_no_credential. now right.
    + exists (String a token). split; [reflexivity|].
      rewrite (handle_with_token w req (String a token) Ht eq_refl).
      destruct (race_result w (String a token)) as [e|r]; [reflexivity|].
      destruct (error r), (user r); reflexivity.
    + destruct Hcred. apply token_no_credential. now left.
Qed.

(** A token the provider resolves before the deadline, without an error,
    yields the provider's email as the request's identity; [next] is
    called once and nothing is sent. *)
Theorem valid_credential_resolves (w : world) (req : request) (token : string)
        (t : N) (u : User) :
  token_of req = Some token -> JS.truthy token = true ->
  settles_after (getUser w token) = Some t -> (t < deadline)%N ->
  settles_to (getUser w token) = inr (mkUserResponse (Some u) None) ->
  handle false w req = (inr tt, mkEffects [] [token] (Some (email u)) 1 []).
Proof.
  intros Ht Htruthy Hsettles Hin Hto.
  rewrite (handle_with_token w req token Ht Htruthy).
  unfold race_result, race_getUser. simpl. rewrite Hsettles.
  destruct (N.ltb_spec t deadline) as [_|Hge]; [|lia].
  simpl. now rewrite Hto.
Qed.

End AuthFacts.

(** ** The theorems at concrete inputs *)
Section Examples.
Import Search Server Scenario.

(** C1 at a concrete input: the provider's only text is the 9-character
    abstract 'Too short'.  One candidate is collected, the length filter
    removes it, and [webSearch] returns [{ ok: true, snippets: '' }]: the
    empty text, not [null]. *)
Example webSearch_all_filtered_returns_empty_text :
  webSearch_collect encode (answers short_abstract) "leaf" 3 = inr ["Too short"] /\
  filter long_enough ["Too short"] = [] /\
  webSearch encode (answers short_abstract) "leaf" 3 =
    inr (mkResult true (Some EmptyString) None None).
Proof. repeat split. Qed.

(** C2 fails as stated at a concrete input: [searchWikipedia] returns the
    text '[1] A: b', whose only entry has 8 characters. *)
Example searchWikipedia_entry_below_minimum :
  exists r,
    searchWikipedia encode (answers one_short_hit) "a" = inr r /\
    snippets r = Some "[1] A: b" /\
    searchWikipedia_entries encode (answers one_short_hit) "a" = ["[1] A: b"] /\
    ~ SnippetResult_invariant r
        (searchWikipedia_entries encode (answers one_short_hit) "a").
Proof.
  eexists. split; [reflexivity|]. split; [reflexivity|]. split; [reflexivity|].
  intros [_ H]. destruct H as [_ H]; [discriminate|].
  inversion H as [|? ? Hlen _]; subst.
  unfold minimum_length in Hlen. simpl in Hlen. lia.
Qed.

(** C3 fails as stated at a concrete input: a request without a header and
    a request with a rejected token receive different responses. *)
Example authentication_failures_distinguishable :
  sent (snd (handle false provider_rejects (mkRequest None))) = [no_token_reply] /\
  sent (snd (handle false provider_rejects (mkRequest (Some "Bearer stale")))) =
    [authentication_failed_reply] /\
  sent (snd (handle false provider_rejects (mkRequest None))) <>
  sent (snd (handle false provider_rejects (mkRequest (Some "Bearer stale")))).
Proof. repeat split. discriminate. Qed.

Example authentication_failures_collapse_rejected_token :
  token_of (mkRequest (Some "Bearer stale")) = Some "stale" /\
  JS.truthy "stale" = true /\
  lookup_failed (race_result provider_rejects "stale") /\
  ((exists line,
      handle false provider_rejects (mkRequest (Some "Bearer stale")) =
      (inr tt, mkEffects [line] ["stale"] None 0 [authentication_failed_reply])) /\
   status authentication_failed_reply = status no_token_reply /\
   body authentication_failed_reply <> body no_token_reply).
Proof.
  assert (Hfail : lookup_failed (race_result provider_rejects "stale")).
  { simpl. left. discriminate. }
  split; [reflexivity|]. split; [reflexivity|]. split; [exact Hfail|].
  exact (authentication_failures_collapse provider_rejects
           (mkRequest (Some "Bearer stale")) "stale" eq_refl eq_refl Hfail).
Defined.

Example missing_credential_rejected_bare_scheme :
  no_credential (mkRequest (Some "Bearer")) /\
  handle false provider_accepts (mkRequest (Some "Bearer")) =
    (inr tt, mkEffects [] [] None 0 [no_token_reply]).
Proof.
  assert (H : no_credential (mkRequest (Some "Bearer"))).
  { apply header_one_field. reflexivity. }
  split; [exact H|].
  exact (missing_credential_rejected provider_accepts (mkRequest (Some "Bearer")) H).
Defined.

Example deadline_exceeded_fails_slow_provider :
  token_of (mkRequest (Some "Bearer abc")) = Some "abc" /\
  JS.truthy "abc" = true /\
  misses_deadline (getUser provider_slow "abc") /\
  handle false provider_slow (mkRequest (Some "Bearer abc")) =
    (inr tt, mkEffects ["Auth Error: Supabase Timeout"] ["abc"] None 0
                       [authentication_failed_reply]).
Proof.
  assert (Hlate : misses_deadline (getUser provider_slow "abc")).
  { reflexivity. }
  split; [reflexivity|]. split; [reflexivity|]. split; [exact Hlate|].
  exact (deadline_exceeded_fails provider_slow (mkRequest (Some "Bearer abc")) "abc"
           eq_refl eq_refl Hlate).
Defined.

Example webSearch_result_cap_photosynthesis :
  (0 <= 2)%Z /\
  ((length (webSearch_entries encode (answers photosynthesis) "photosynthesis" 2) <= 2)%nat /\
   (forall r text,
      webSearch encode (answers photosynthesis) "photosynthesis" 2 = inr r ->
      snippets r = Some text ->
      text = JS.join JS.blank_line
               (webSearch_entries encode (answers photosynthesis) "photosynthesis" 2))).
Proof.
  assert (H : (0 <= 2)%Z) by discriminate.
  split; [exact H|].
  exact (webSearch_result_cap encode (answers photosynthesis) "photosynthesis" 2 H).
Defined.


Example valid_credential_resolves_ada :
  token_of (mkRequest (Some "Bearer abc")) = Some "abc" /\
  JS.truthy "abc" = true /\
  settles_after (getUser provider_accepts "abc") = Some 120%N /\
  (120 < deadline)%N /\
  settles_to (getUser provider_accepts "abc") =
    inr (mkUserResponse (Some (mkUser "ada@example.org")) None) /\
  handle false provider_accepts (mkRequest (Some "Bearer abc")) =
    (inr tt, mkEffects [] ["abc"] (Some "ada@example.org") 1 []).
Proof.
  assert (Hin : (120 < deadline)%N) by reflexivity.
  repeat (split; [first [reflexivity | exact Hin]|]).
  exact (valid_credential_resolves provider_accepts (mkRequest (Some "Bearer abc"))
           "abc" 120%N (mkUser "ada@example.org") eq_refl eq_refl eq_refl Hin eq_refl).
Defined.

Example webSearch_filtered_out_text_short_abstract :
  webSearch_collect encode (answers short_abstract) "leaf" 3 = inr ["Too short"] /\
  ["Too short"] <> [] /\
  Forall (fun s => (String.length s <= 20)%nat) ["Too short"] /\
  Search.webSearch encode (answers short_abstract) "leaf" 3 =
    inr (mkResult true (Some EmptyString) None None).
Proof.
  assert (Hne : ["Too short"] <> @nil string) by discriminate.
  assert (Hshort : Forall (fun s => (String.length s <= 20)%nat) ["Too short"]).
  { repeat constructor. }
  split; [reflexivity|]. split; [exact Hne|]. split; [exact Hshort|].
  exact (webSearch_filtered_out_text encode (answers short_abstract) "leaf" 3
           ["Too short"] eq_refl Hne Hshort).
Defined.

(** The scenario of the specification: an abstract and three related
    topics, all long enough, requested with [maxResults = 2], give exactly
    two indexed entries, the first being the abstract. *)
Example webSearch_photosynthesis_two_entries :
  Search.webSearch encode (answers photosynthesis) "photosynthesis" 2 =
  inr (mkResult true
         (Some ("[1] Photosynthesis converts light energy into chemical energy."
                  ++ JS.blank_line
                  ++ "[2] Chloroplasts are the site of photosynthesis in plants."))
         None None).
Proof. reflexivity. Qed.

(** A negative [maxResults] makes both [slice] calls count from the end of
    the array, so entries are still returned. *)
Example webSearch_negative_maxResults :
  webSearch_entries encode (answers photosynthesis) "photosynthesis" (-1) =
  ["[1] Photosynthesis converts light energy into chemical energy.";
   "[2] Chloroplasts are the site of photosynthesis in plants."].
Proof. reflexivity. Qed.

(** A status that is not a success is reported with its code. *)
Example webSearch_service_unavailable :
  Search.webSearch encode (refuses 503) "leaf" 3 =
  inr (mkResult false None (Some "Search API returned 503") None).
Proof. reflexivity. Qed.

(** An aborted request is reported as a timeout. *)
Example webSearch_aborted :
  Search.webSearch encode
    (fun _ _ => inl (JS.mkErr "AbortError" "The user aborted a request.")) "leaf" 3 =
  inr (mkResult false None (Some "Search timed out") None).
Proof. reflexivity. Qed.

(** A header with two spaces after the scheme has an empty second field. *)
Example double_space_header_has_no_credential :
  no_credential (mkRequest (Some "Bearer  abc")).
Proof.
  apply (header_empty_field "Bearer" " abc"); [reflexivity|]. right. eauto.
Qed.

End Examples.

(** ** More about the built-ins *)
Section MoreBuiltinFacts.
Import Reading.

(** The length of [arr.slice(0, e)]. *)
Lemma length_slice0_exact {A : Type} (arr : list A) (e : Z) :
  length (JS.slice0 arr e) =
  if (e <? 0)%Z then (length arr - Z.to_nat (- e))%nat
  else Nat.min (Z.to_nat e) (length arr).
Proof.
  unfold JS.slice0. rewrite length_firstn.
  destruct (Z.ltb_spec e 0) as [Hneg|Hpos]; lia.
Qed.

(** What the scan lets through is part of what it read. *)
Lemma contains_strip_tags_from (c : ascii) (s : string) :
  forall in_tag, JS.contains c (JS.strip_tags_from in_tag s) = true ->
                 JS.contains c s = true.
Proof.
  induction s as [|a rest IH]; intros in_tag; simpl; [trivial|].
  destruct in_tag.
  - destruct (Ascii.eqb a ">"); intros H; apply IH in H; rewrite H; apply orb_true_r.
  - destruct (Ascii.eqb a "<" && JS.contains ">" rest).
    + intros H. apply IH in H. rewrite H. apply orb_true_r.
    + simpl. intros H. apply orb_true_iff in H as [H|H].
      * now rewrite H.
      * apply IH in H. rewrite H. apply orb_true_r.
Qed.

Lemma has_tag_strip_tags_from (s : string) :
  forall in_tag, has_tag (JS.strip_tags_from in_tag s) = false.
Proof.
  induction s as [|a rest IH]; intros in_tag; simpl; [reflexivity|].
  destruct in_tag.
  - destruct (Ascii.eqb a ">"); apply IH.
  - destruct (Ascii.eqb a "<" && JS.contains ">" rest) eqn:Hopen; [apply IH|].
    simpl. rewrite IH, orb_false_r.
    destruct (Ascii.eqb a "<"); [|reflexivity]. simpl in *.
    destruct (JS.contains ">" (JS.strip_tags_from false rest)) eqn:Hc; [|reflexivity].
    apply contains_strip_tags_from in Hc. congruence.
Qed.

Lemma strip_tags_from_untagged (s : string) :
  has_tag s = false -> JS.strip_tags_from false s = s.
Proof.
  induction s as [|a rest IH]; simpl; [reflexivity|].
  intros H. apply orb_false_iff in H as [Hopen Hrest].
  rewrite Hopen, (IH Hrest). reflexivity.
Qed.

Lemma length_strip_tags_from (s : string) :
  forall in_tag, (String.length (JS.strip_tags_from in_tag s) <= String.length s)%nat.
Proof.
  induction s as [|a rest IH]; intros in_tag; simpl; [lia|].
  destruct in_tag.
  - destruct (Ascii.eqb a ">"); [specialize (IH false) | specialize (IH true)]; lia.
  - destruct (Ascii.eqb a "<" && JS.contains ">" rest);
      [specialize (IH true) | specialize (IH false); simpl]; lia.
Qed.

(** Line 130's [replace(/<[^>]*>/g, '')]: the result holds no '<' that is
    followed by a '>' (nothing is left for the pattern to match), a text
    without such a pair comes back unchanged, stripping twice is stripping
    once, and the result is never longer than the text. *)
Theorem strip_tags_removes_every_tag (s : string) :
  has_tag (JS.strip_tags s) = false /\
  (has_tag s = false -> JS.strip_tags s = s) /\
  JS.strip_tags (JS.strip_tags s) = JS.strip_tags s /\
  (String.length (JS.strip_tags s) <= String.length s)%nat.
Proof.
  unfold JS.strip_tags. repeat split.
  - apply has_tag_strip_tags_from.
  - apply strip_tags_from_untagged.
  - apply strip_tags_from_untagged, has_tag_strip_tags_from.
  - apply length_strip_tags_from.
Qed.

End MoreBuiltinFacts.

(** ** More about the pure steps of the search client *)
Section MorePipelineFacts.
Import Search Reading.

Lemma forEach_topic_reading (topics : list topic) :
  forall snippets,
    forEach_topic topics snippets =
    if existsb is_null_topic topics
    then inl (JS.TypeError "Cannot read properties of null (reading 'Text')")
    else inr (snippets ++ topic_texts topics)%list.
Proof.
  induction topics as [|[|[t|]] rest IH]; intros snippets; simpl.
  - now rewrite app_nil_r.
  - reflexivity.
  - destruct (JS.truthy t); rewrite IH; destruct (existsb is_null_topic rest);
      try reflexivity.
    now rewrite <- app_assoc.
  - apply IH.
Qed.

Lemma collect_cases (o : json_object) (maxResults : Z) :
  collect (JObject o) maxResults =
  if existsb is_null_topic (visited_topics o maxResults)
  then inl (JS.TypeError "Cannot read properties of null (reading 'Text')")
  else inr (abstract_texts o ++ topic_texts (visited_topics o maxResults))%list.
Proof.
  unfold collect, push_abstract, visited_topics, abstract_texts. simpl.
  destruct (Abstract o) as [a|]; [destruct (JS.truthy a)|];
    simpl; (destruct (RelatedTopics o) as [topics|];
            [apply forEach_topic_reading | reflexivity]).
Qed.

(** Lines 34-48 read as a whole: the candidates are the abstract, when it
    is a non-empty text, followed by the non-empty texts of the visited
    related topics (the first [maxResults] of them), in order; a [null]
    among the visited topics makes the collection throw. *)
Theorem collect_reading (o : json_object) (maxResults : Z) :
  collect (JObject o) maxResults =
  if existsb is_null_topic (visited_topics o maxResults)
  then inl (JS.TypeError "Cannot read properties of null (reading 'Text')")
  else inr (abstract_texts o ++ topic_texts (visited_topics o maxResults))%list.
Proof. apply collect_cases. Qed.

(** Lines 62-65: how many entries are formatted.  With a non-negative
    [maxResults] it is the smaller of [maxResults] and the number of
    candidates longer than 20 characters; with a negative one, [slice]
    drops that many passing candidates from the end. *)
Lemma formatEntries_count (snippets : list string) (maxResults : Z) :
  length (formatEntries snippets maxResults) =
  if (maxResults <? 0)%Z
  then (length (filter long_enough snippets) - Z.to_nat (- maxResults))%nat
  else Nat.min (Z.to_nat maxResults) (length (filter long_enough snippets)).
Proof.
  unfold formatEntries, JS.mapi. rewrite length_mapi_from.
  apply length_slice0_exact.
Qed.

Lemma map_hits_reading (results : list hit) :
  forall idx,
    (forallb formattable results = true ->
     map_hits idx results = inr (JS.mapi_from hit_entry idx results)) /\
    (forallb formattable results = false ->
     exists e, map_hits idx results = inl e /\
       (e = JS.TypeError "Cannot read properties of null (reading 'title')" \/
        e = JS.TypeError "Cannot read properties of undefined (reading 'replace')")).
Proof.
  induction results as [|r rest IH]; intros idx; simpl.
  - split; [reflexivity | discriminate].
  - destruct (IH (S idx)) as [IHgood IHbad].
    destruct r as [|title [s|]]; simpl.
    + split; [discriminate | eauto].
    + split; intros H.
      * now rewrite (IHgood H).
      * destruct (IHbad H) as (e & -> & He). eauto.
    + split; [discriminate | eauto].
Qed.

End MorePipelineFacts.

(** ** More about the search client *)
Section MoreSearchFacts.
Import Search Reading.

Variable encodeURIComponent : string -> JS.completion string.
Variable fetch : string -> list (string * string) -> JS.completion Response.

Local Abbreviation webSearch := (Search.webSearch encodeURIComponent fetch).
Local Abbreviation webSearch_collect := (Search.webSearch_collect encodeURIComponent fetch).
Local Abbreviation webSearch_entries := (Search.webSearch_entries encodeURIComponent fetch).
Local Abbreviation searchWikipedia := (Search.searchWikipedia encodeURIComponent fetch).
Local Abbreviation searchWikipedia_found := (Search.searchWikipedia_found encodeURIComponent fetch).
Local Abbreviation checkSearchHealth := (Search.checkSearchHealth encodeURIComponent fetch).
Local Abbreviation answered := (decoded encodeURIComponent fetch webSearch_url webSearch_headers).
Local Abbreviation answered_wiki := (decoded encodeURIComponent fetch searchWikipedia_url []).

Lemma webSearch_collect_decoded (query : string) (maxResults : Z) (data : json) :
  answered query data ->
  webSearch_collect query maxResults = collect data maxResults.
Proof.
  intros (u & response & Hu & Hf & Hok & Hj).
  unfold Search.webSearch_collect. simpl. rewrite Hu, Hf, Hok. simpl.
  rewrite Hj. reflexivity.
Qed.

Lemma searchWikipedia_found_decoded (query : string) (data : json) :
  answered_wiki query data ->
  searchWikipedia_found query = query_search data.
Proof.
  intros (u & response & Hu & Hf & Hok & Hj).
  unfold Search.searchWikipedia_found. simpl. rewrite Hu, Hf, Hok. simpl.
  rewrite Hj. reflexivity.
Qed.

(** How many entries [webSearch] returns: with [0 <= maxResults], the
    smaller of [maxResults] and the number of collected candidates longer
    than 20 characters; with a negative [maxResults], that number less
    [-maxResults] (never below zero). *)
Theorem webSearch_entry_count (query : string) (maxResults : Z) (cands : list string) :
  webSearch_collect query maxResults = inr cands ->
  length (webSearch_entries query maxResults) =
  if (maxResults <? 0)%Z
  then (length (filter long_enough cands) - Z.to_nat (- maxResults))%nat
  else Nat.min (Z.to_nat maxResults) (length (filter long_enough cands)).
Proof.
  intros Hc. rewrite (webSearch_entries_collect _ _ _ _ _ Hc).
  apply formatEntries_count.
Qed.

(** On a decoded instant answer with no [null] among the visited topics,
    the entries are formatted from the abstract (when non-empty) followed
    by the non-empty texts of the first [maxResults] related topics; and
    when the abstract is longer than 20 characters and [1 <= maxResults],
    the abstract is entry [[1]] and takes one of the [maxResults] places:
    at most [maxResults - 1] related topics follow it. *)
Theorem webSearch_abstract_takes_a_place (query : string) (maxResults : Z) (o : json_object) :
  answered query (JObject o) ->
  existsb is_null_topic (visited_topics o maxResults) = false ->
  webSearch_entries query maxResults =
    formatEntries (abstract_texts o ++ topic_texts (visited_topics o maxResults))
                  maxResults /\
  (forall a, Abstract o = Some a -> (20 < String.length a)%nat -> (1 <= maxResults)%Z ->
     webSearch_entries query maxResults =
       ("[1] " ++ a) ::
       JS.mapi_from format_snippet 1
         (firstn (Z.to_nat maxResults - 1)
                 (filter long_enough (topic_texts (visited_topics o maxResults))))).
Proof.
  intros Hans Hnull.
  assert (Hc : webSearch_collect query maxResults =
               inr (abstract_texts o ++ topic_texts (visited_topics o maxResults))%list).
  { rewrite (webSearch_collect_decoded _ _ _ Hans), collect_cases. now rewrite Hnull. }
  rewrite (webSearch_entries_collect _ _ _ _ _ Hc). split; [reflexivity|].
  intros a Ha Hlong Hn.
  assert (Htruthy : JS.truthy a = true) by (destruct a; [simpl in Hlong; lia | reflexivity]).
  assert (Hpass : long_enough a = true) by (apply long_enough_length; exact Hlong).
  unfold formatEntries, abstract_texts. rewrite Ha, Htruthy. simpl.
  rewrite Hpass, slice0_firstn by lia.
  destruct (Z.to_nat maxResults) as [|k] eqn:Hk; [lia|].
  simpl. now rewrite Nat.sub_0_r.
Qed.

(** The shape of every result of [webSearch]: [error] is present exactly
    on [ok: false]; [message] is present only on the no-results answer;
    and [ok: true] with [snippets: null] is returned exactly when no
    candidate was collected. *)
Theorem webSearch_result_shape (query : string) (maxResults : Z) :
  exists r, webSearch query maxResults = inr r /\
    (ok r = false <-> error r <> None) /\
    (message r = None \/
     r = mkResult true None None (Some "No search results found")) /\
    (ok r = true /\ snippets r = None <-> webSearch_collect query maxResults = inr []).
Proof.
  rewrite webSearch_cases.
  destruct (webSearch_collect query maxResults) as [e|[|c cs]].
  - destruct (webSearch_catch_shape e) as [m ->]. eexists. split; [reflexivity|]. simpl.
    repeat split; try discriminate; auto; intros H; try discriminate.
    destruct H; discriminate.
  - eexists. split; [reflexivity|]. simpl.
    repeat split; try discriminate; auto. intros H. now contradiction H.
  - eexists. split; [reflexivity|]. simpl.
    repeat split; try discriminate; auto; intros H; try discriminate.
    + now contradiction H.
    + destruct H; discriminate.
Qed.

(** A response whose status is not a success: [webSearch] reports the
    status code in its error text, [searchWikipedia] reports the fixed
    text 'Wikipedia API failed' whatever the code.  Neither reads the
    body. *)
Theorem search_reports_bad_status (query u : string) (maxResults : Z)
        (response : Response) :
  encodeURIComponent query = inr u ->
  resp_ok response = false ->
  (fetch (webSearch_url u) webSearch_headers = inr response ->
   webSearch query maxResults =
   inr (mkResult false None
          (Some ("Search API returned " ++ JS.decimal (resp_status response))) None)) /\
  (fetch (searchWikipedia_url u) [] = inr response ->
   searchWikipedia query = inr (mkResult false None (Some "Wikipedia API failed") None)).
Proof.
  intros Hu Hok. split; intros Hf.
  - unfold Search.webSearch, Search.webSearch_try, Search.webSearch_collect. simpl.
    rewrite Hu, Hf, Hok. reflexivity.
  - unfold Search.searchWikipedia, Search.searchWikipedia_try,
      Search.searchWikipedia_found. simpl.
    rewrite Hu, Hf, Hok. reflexivity.
Qed.

(** A [fetch] that rejects with an 'AbortError' (the 10-second timer
    fired): [webSearch] reports 'Search timed out', [searchWikipedia]
    passes the rejection's own message on.  Any other rejection is
    reported by both with its own message. *)
Theorem search_reports_rejection (query u : string) (maxResults : Z) (e : JS.Error) :
  encodeURIComponent query = inr u ->
  (fetch (webSearch_url u) webSearch_headers = inl e ->
   webSearch query maxResults =
   inr (mkResult false None
          (Some (if String.eqb (JS.name e) "AbortError"
                 then "Search timed out" else JS.message e)) None)) /\
  (fetch (searchWikipedia_url u) [] = inl e ->
   searchWikipedia query = inr (mkResult false None (Some (JS.message e)) None)).
Proof.
  intros Hu. split; intros Hf.
  - unfold Search.webSearch, Search.webSearch_try, Search.webSearch_collect. simpl.
    rewrite Hu, Hf. unfold webSearch_catch.
    destruct (JS.name e =? "AbortError"); reflexivity.
  - unfold Search.searchWikipedia, Search.searchWikipedia_try,
      Search.searchWikipedia_found. simpl.
    rewrite Hu, Hf. reflexivity.
Qed.

(** When every hit of a decoded encyclopedia answer is an object with a
    snippet text, [searchWikipedia] returns one entry per hit, in order
    and uncapped: entry [i] is '[i] title: snippet' with the markup
    stripped from the snippet ('undefined' standing for a missing title). *)
Theorem searchWikipedia_formats_every_hit (query : string) (o : json_object)
        (hits : list hit) :
  answered_wiki query (JObject o) ->
  Search.query o = Some (mkQuery (Some hits)) ->
  hits <> [] ->
  forallb formattable hits = true ->
  searchWikipedia query =
    inr (mkResult true (Some (JS.join JS.blank_line (JS.mapi hit_entry hits))) None None) /\
  length (JS.mapi hit_entry hits) = length hits.
Proof.
  intros Hans Hq Hne Hgood. split; [|apply length_mapi_from].
  rewrite searchWikipedia_cases, (searchWikipedia_found_decoded _ _ Hans).
  unfold query_search. rewrite Hq. simpl.
  destruct hits as [|h rest]; [contradiction|].
  now rewrite (proj1 (map_hits_reading (h :: rest) 0) Hgood).
Qed.


(** What the health probe reports: [{ ok: false }], with no error text,
    whenever the probe request fails; [{ ok: true }] whenever
    [webSearch('test', 1)] got through its collection of candidates, even
    when it collected none. *)
Theorem checkSearchHealth_reading :
  (forall u, encodeURIComponent "test" = inr u ->
     request_fails (fetch (webSearch_url u) webSearch_headers) ->
     checkSearchHealth = inr (mkHealth false None)) /\
  (forall cands, webSearch_collect "test" 1 = inr cands ->
     checkSearchHealth = inr (mkHealth true None)).
Proof.
  unfold Search.checkSearchHealth, Search.checkSearchHealth_try. simpl.
  split.
  - intros u Hu Hf.
    destruct (webSearch_collect_fails _ _ "test" u 1 Hu Hf) as [e He].
    rewrite webSearch_cases, He.
    destruct (webSearch_catch_shape e) as [m ->]. reflexivity.
  - intros cands Hc. rewrite webSearch_cases, Hc.
    destruct cands; reflexivity.
Qed.

End MoreSearchFacts.

(** ** More about the authentication gate *)
Section MoreAuthFacts.
Import Server.

Lemma requireAuth_outcomes (bypass : bool) (w : world) (req : request) :
  let fx := snd (handle bypass w req) in
  fst (handle bypass w req) = inr tt /\
  (length (getUser_calls fx) <= 1)%nat /\
  ((next_calls fx = 1%nat /\ sent fx = [] /\ exists e, userEmail fx = Some e) \/
   (next_calls fx = 0%nat /\ userEmail fx = None /\
    (sent fx = [no_token_reply] \/ sent fx = [authentication_failed_reply]))).
Proof.
  destruct bypass.
  - simpl. repeat split; [lia | left; eauto].
  - destruct (token_of req) as [[|a token]|] eqn:Ht.
    + rewrite (handle_without_token w req (or_intror Ht)). simpl.
      repeat split; [lia | right; auto].
    + rewrite (handle_with_token w req (String a token) Ht eq_refl).
      destruct (race_result w (String a token)) as [e|r].
      * simpl. repeat split; [lia | right; auto].
      * destruct (error r), (user r); simpl;
          repeat split; try lia; (right; now auto) || (left; eauto).
    + rewrite (handle_without_token w req (or_introl Ht)). simpl.
      repeat split; [lia | right; auto].
Qed.

(** Every run of the middleware ends in exactly one of two ways: the
    request is passed on ([next] called once, nothing sent), or it is
    answered once with one of the two 401 replies ([next] not called,
    [req.userEmail] left unset).  The middleware never throws and contacts
    the identity provider at most once. *)
Theorem requireAuth_settles_every_request (bypass : bool) (w : world) (req : request) :
  let fx := snd (handle bypass w req) in
  fst (handle bypass w req) = inr tt /\
  (length (getUser_calls fx) <= 1)%nat /\
  ((next_calls fx = 1%nat /\ sent fx = []) \/
   (next_calls fx = 0%nat /\ userEmail fx = None /\
    (sent fx = [no_token_reply] \/ sent fx = [authentication_failed_reply]))).
Proof.
  destruct (requireAuth_outcomes bypass w req) as (Hret & Hcalls & Hends).
  repeat split; try assumption.
  destruct Hends as [(Hnext & Hsent & _) | Hrejected]; [left | right]; auto.
Qed.

(** Line 76 takes as token the text between the first and the second
    space of the header: the word before the first space (the scheme) is
    not looked at, and whatever follows a second space is ignored. *)
Theorem token_is_second_field (scheme token : string) :
  JS.contains " " scheme = false ->
  JS.contains " " token = false ->
  token_of (mkRequest (Some (scheme ++ String " " token))) = Some token /\
  (forall rest,
     token_of (mkRequest (Some (scheme ++ String " " (token ++ String " " rest))))
     = Some token).
Proof.
  intros Hs Ht. unfold token_of. simpl. split.
  - rewrite split_append, split_without by assumption. reflexivity.
  - intros rest. rewrite !split_append by assumption. reflexivity.
Qed.

(** In normal mode a request with a token is passed on exactly when the
    race settles to a user and no error; the identity attached is then
    that user's email.  An answer that carries both a user and an error is
    rejected: the error wins. *)
Theorem passes_iff_user_without_error (w : world) (req : request) (token : string) :
  token_of req = Some token -> JS.truthy token = true ->
  let fx := snd (handle false w req) in
  (next_calls fx = 1%nat <->
   exists u, race_result w token = inr (mkUserResponse (Some u) None)) /\
  (forall u, race_result w token = inr (mkUserResponse (Some u) None) ->
     userEmail fx = Some (email u)) /\
  (forall u m, race_result w token = inr (mkUserResponse (Some u) (Some m)) ->
     next_calls fx = 0%nat /\ sent fx = [authentication_failed_reply]).
Proof.
  intros Ht Htruthy. rewrite (handle_with_token w req token Ht Htruthy).
  destruct (race_result w token) as [e|[[u|] [m|]]]; simpl; repeat split;
    try discriminate; try (intros [u' Hu']; discriminate);
    try (intros u' Hu'; discriminate); try (intros u' m' Hu'; discriminate);
    eauto.
  intros u' [= ->]. reflexivity.
Qed.

(** Bypass mode needs the variable to be exactly 'true': with any other
    value, or none, the gate is in normal mode and a request without a
    credential is answered 401 'No token provided'. *)
Theorem bypass_needs_exact_true (env : option string) (w : world) (req : request) :
  env <> Some "true" ->
  no_credential req ->
  BYPASS_AUTH env = false /\
  handle (BYPASS_AUTH env) w req = (inr tt, mkEffects [] [] None 0 [no_token_reply]).
Proof.
  intros Henv Hreq.
  assert (Hoff : BYPASS_AUTH env = false).
  { destruct env as [v|]; [|reflexivity]. simpl.
    apply String.eqb_neq. congruence. }
  split; [exact Hoff|]. rewrite Hoff.
  apply handle_without_token. now apply no_credential_token.
Qed.

End MoreAuthFacts.

(** ** The routes *)
Section RouteFacts.
Import Server Routes.

Variable V : Type.
Variable Doc : Type.

Implicit Types (st : store V Doc) (req : http_request V) (r : route).

(** The two 401 replies, as responses. *)
Lemma of_reply_401 (rp : reply) :
  rp = no_token_reply \/ rp = authentication_failed_reply ->
  code (of_reply (Doc := Doc) rp) = 401.
Proof. intros [-> | ->]; reflexivity. Qed.

(** Every handler answers once, with 200 or 500, after at most one store
    operation, and does not throw. *)
Lemma handler_answers_once st r (userEmail : option string) (b : option (Body V)) :
  exists calls rp,
    handler_of st r userEmail b (mkTrace [] []) = (inr tt, mkTrace calls [rp]) /\
    (length calls <= 1)%nat /\ (code rp = 200 \/ code rp = 500).
Proof.
  destruct r; simpl;
    unfold post_notes, post_notes_try, get_notes, get_notes_try,
           post_career, post_career_try, get_career, get_career_try,
           destructure, await_store; simpl.
  - destruct b as [fields|]; simpl.
    + destruct (Note_save st _) as [e|note]; simpl;
        do 2 eexists; (split; [reflexivity|]); simpl; auto.
    + do 2 eexists; (split; [reflexivity|]); simpl; auto.
  - destruct (Note_find st userEmail) as [e|found]; simpl;
      do 2 eexists; (split; [reflexivity|]); simpl; auto.
  - destruct b as [fields|]; simpl.
    + destruct (CareerReport_save st _) as [e|report]; simpl;
        do 2 eexists; (split; [reflexivity|]); simpl; auto.
    + do 2 eexists; (split; [reflexivity|]); simpl; auto.
  - destruct (CareerReport_find st userEmail) as [e|found]; simpl;
      do 2 eexists; (split; [reflexivity|]); simpl; auto.
Qed.

(** A request the middleware passed on reaches the handler with the
    identity the middleware attached. *)
Lemma serve_passed (bypass : bool) (w : world) st r req
      (lines : list string) (calls : list string) (e : string) :
  handle bypass w (headers req) = (inr tt, mkEffects lines calls (Some e) 1 []) ->
  snd (serve bypass w st r req) = handler_of st r (Some e) (req_body req) (mkTrace [] []).
Proof.
  intros H. unfold serve, behind_requireAuth. rewrite H. reflexivity.
Qed.

(** A request the middleware answered reaches no handler. *)
Lemma serve_rejected (bypass : bool) (w : world) st r req
      (lines : list string) (calls : list string) (rp : reply) :
  handle bypass w (headers req) = (inr tt, mkEffects lines calls None 0 [rp]) ->
  snd (serve bypass w st r req) = (inr tt, mkTrace [] [of_reply rp]).
Proof.
  intros H. unfold serve, behind_requireAuth. rewrite H. reflexivity.
Qed.

Lemma serve_cases (bypass : bool) (w : world) st r req :
  exists calls rp,
    snd (serve bypass w st r req) = (inr tt, mkTrace calls [rp]) /\
    (length calls <= 1)%nat /\
    (code rp = 200 \/ code rp = 401 \/ code rp = 500) /\
    (code rp = 401 -> calls = []).
Proof.
  pose proof (requireAuth_outcomes bypass w (headers req)) as Hs.
  simpl in Hs. destruct Hs as (Hret & _ & Hs).
  destruct (handle bypass w (headers req)) as [c [lines calls email n out]] eqn:Hh.
  simpl in *. subst c.
  destruct Hs as [(-> & -> & e & ->) | (-> & -> & Hout)].
  - rewrite (serve_passed _ _ st r _ _ _ _ Hh).
    destruct (handler_answers_once st r (Some e) (req_body req))
      as (hcalls & rp & -> & Hlen & Hcode).
    exists hcalls, rp. repeat split; try assumption.
    + destruct Hcode; auto.
    + intros H401. destruct Hcode as [H|H]; rewrite H in H401; discriminate.
  - assert (Hone : exists rp, out = [rp] /\
                     (rp = no_token_reply \/ rp = authentication_failed_reply)).
    { destruct Hout as [-> | ->]; eauto. }
    destruct Hone as (rp & -> & Hrp).
    rewrite (serve_rejected _ _ st r _ _ _ _ Hh).
    exists [], (of_reply rp). repeat split; simpl; auto.
    right; left. now apply of_reply_401.
Qed.

(** What the chain of [requireAuth] and a route handler never does, for a
    request that reached it, in either mode: it sends no second response,
    performs no second store operation, sends no status other than 200,
    401 or 500, performs no store operation when it answers 401, and lets
    no exception escape. *)
Theorem serve_never_answers_twice (bypass : bool) (w : world) st r req :
  let tr := snd (snd (serve bypass w st r req)) in
  (length (responses tr) <= 1)%nat /\
  (length (store_calls tr) <= 1)%nat /\
  (forall rp, In rp (responses tr) ->
     (code rp = 200 \/ code rp = 401 \/ code rp = 500) /\
     (code rp = 401 -> store_calls tr = [])) /\
  (forall e, fst (snd (serve bypass w st r req)) <> inl e).
Proof.
  destruct (serve_cases bypass w st r req) as (calls & rp & Hs & Hlen & Hcode & H401).
  simpl. rewrite Hs. simpl. repeat split; auto.
  - destruct H as [<- | []]. exact Hcode.
  - destruct H as [<- | []]. exact H401.
  - discriminate.
Qed.

(** In normal mode a request without a usable credential, or whose lookup
    failed, reaches no route handler: the store is not touched and the
    only response is the middleware's 401. *)
Theorem rejected_requests_reach_no_store (w : world) st r req :
  no_credential (headers req) \/
  (exists token, token_of (headers req) = Some token /\ JS.truthy token = true /\
                 lookup_failed (race_result w token)) ->
  exists rp,
    snd (serve false w st r req) = (inr tt, mkTrace [] [of_reply rp]) /\
    (rp = no_token_reply \/ rp = authentication_failed_reply) /\
    status rp = 401.
Proof.
  intros [Hnone | (token & Ht & Htruthy & Hfail)].
  - exists no_token_reply. split; [|split; [now left | reflexivity]].
    apply serve_rejected with (lines := []) (calls := []).
    apply handle_without_token. now apply no_credential_token.
  - exists authentication_failed_reply. split; [|split; [now right | reflexivity]].
    pose proof (handle_with_token w (headers req) token Ht Htruthy) as Hh.
    destruct (race_result w token) as [e|rsp].
    + now apply serve_rejected with (lines := ["Auth Error: " ++ JS.message e])
                                    (calls := [token]).
    + simpl in Hfail.
      destruct (error rsp) as [m|], (user rsp) as [u|];
        try (now apply serve_rejected with (lines := ["Auth Error: Invalid token"])
                                           (calls := [token])).
      destruct Hfail as [H|H]; [now contradiction H | discriminate].
Qed.

(** POST /api/notes and POST /api/career for a verified token: the one
    store operation saves the fields read from the body under the verified
    email (an 'email' or any other key of the body is not read); the
    answer is 200 with the saved note (resp. [{ success: true }]) when the
    store accepts, and 500 with the store's message when it rejects. *)
Theorem writes_are_owned_by_the_verified_identity (w : world) st req
        (token : string) (u : User) (fields : Body V) :
  token_of (headers req) = Some token -> JS.truthy token = true ->
  race_result w token = inr (mkUserResponse (Some u) None) ->
  req_body req = Some fields ->
  let note := mkNoteInput (Some (email u)) (fields "title") (fields "smart_notes")
                          (fields "mcq_json") (fields "pages") in
  let report := mkCareerInput (Some (email u)) (fields "role") (fields "report_html") in
  let failure (e : JS.Error) :=
    mkResponse 500 (Fields [("success", VBool false); ("error", VString (JS.message e))]) in
  snd (serve false w st POST_api_notes req) =
    (inr tt, mkTrace [SaveNote note]
               [match Note_save st note with
                | inr saved => mkResponse 200 (NoteCreated saved)
                | inl e => failure e
                end]) /\
  snd (serve false w st POST_api_career req) =
    (inr tt, mkTrace [SaveCareerReport report]
               [match CareerReport_save st report with
                | inr _ => mkResponse 200 (Fields [("success", VBool true)])
                | inl e => failure e
                end]).
Proof.
  intros Ht Htruthy Hrace Hbody note report failure.
  assert (Hh : handle false w (headers req) =
               (inr tt, mkEffects [] [token] (Some (email u)) 1 [])).
  { rewrite (handle_with_token w (headers req) token Ht Htruthy), Hrace. reflexivity. }
  split.
  - rewrite (serve_passed _ _ st POST_api_notes _ _ _ _ Hh). simpl.
    unfold post_notes, post_notes_try, destructure, await_store. rewrite Hbody. simpl.
    fold note. destruct (Note_save st note); reflexivity.
  - rewrite (serve_passed _ _ st POST_api_career _ _ _ _ Hh). simpl.
    unfold post_career, post_career_try, destructure, await_store. rewrite Hbody. simpl.
    fold report. destruct (CareerReport_save st report); reflexivity.
Qed.

(** GET /api/notes and GET /api/career for a verified token: the one store
    operation is a find by the verified email, whatever the body; the
    answer is 200 with the documents found, or 500 with the store's
    message. *)
Theorem reads_are_scoped_to_the_verified_identity (w : world) st req
        (token : string) (u : User) :
  token_of (headers req) = Some token -> JS.truthy token = true ->
  race_result w token = inr (mkUserResponse (Some u) None) ->
  let failure (e : JS.Error) :=
    mkResponse 500 (Fields [("success", VBool false); ("error", VString (JS.message e))]) in
  snd (serve false w st GET_api_notes req) =
    (inr tt, mkTrace [FindNotes (Some (email u))]
               [match Note_find st (Some (email u)) with
                | inr found => mkResponse 200 (Documents found)
                | inl e => failure e
                end]) /\
  snd (serve false w st GET_api_career req) =
    (inr tt, mkTrace [FindCareerReports (Some (email u))]
               [match CareerReport_find st (Some (email u)) with
                | inr found => mkResponse 200 (Documents found)
                | inl e => failure e
                end]).
Proof.
  intros Ht Htruthy Hrace failure.
  assert (Hh : handle false w (headers req) =
               (inr tt, mkEffects [] [token] (Some (email u)) 1 [])).
  { rewrite (handle_with_token w (headers req) token Ht Htruthy), Hrace. reflexivity. }
  split.
  - rewrite (serve_passed _ _ st GET_api_notes _ _ _ _ Hh). simpl.
    unfold get_notes, get_notes_try, await_store. simpl.
    destruct (Note_find st (Some (email u))); reflexivity.
  - rewrite (serve_passed _ _ st GET_api_career _ _ _ _ Hh). simpl.
    unfold get_career, get_career_try, await_store. simpl.
    destruct (CareerReport_find st (Some (email u))); reflexivity.
Qed.

(** A POST that was passed on but has no body ([req.body] undefined) is
    answered 500 with the TypeError of the destructuring; the store is not
    called. *)
Theorem post_without_body_is_500 (bypass : bool) (w : world) st req :
  req_body req = None ->
  next_calls (snd (handle bypass w (headers req))) = 1%nat ->
  let failure (property : string) :=
    mkResponse (Doc := Doc) 500
      (Fields [("success", VBool false);
               ("error", VString ("Cannot destructure property '" ++ property
                                    ++ "' of 'req.body' as it is undefined."))]) in
  snd (serve bypass w st POST_api_notes req) = (inr tt, mkTrace [] [failure "title"]) /\
  snd (serve bypass w st POST_api_career req) = (inr tt, mkTrace [] [failure "role"]).
Proof.
  intros Hbody Hnext failure.
  pose proof (requireAuth_outcomes bypass w (headers req)) as Hs.
  simpl in Hs. destruct Hs as (Hret & _ & Hs).
  destruct (handle bypass w (headers req)) as [c [lines calls email n out]] eqn:Hh.
  simpl in *. subst c n.
  destruct Hs as [(_ & -> & e & ->) | (Hn & _)]; [|discriminate].
  split.
  - rewrite (serve_passed _ _ st POST_api_notes _ _ _ _ Hh). simpl.
    unfold post_notes, post_notes_try, destructure. rewrite Hbody. reflexivity.
  - rewrite (serve_passed _ _ st POST_api_career _ _ _ _ Hh). simpl.
    unfold post_career, post_career_try, destructure. rewrite Hbody. reflexivity.
Qed.

(** In bypass mode every route runs as the sentinel identity, whatever the
    authorization header, and the identity provider is not contacted: a
    note is saved under 'test@dev.com', and a listing finds by it. *)
Theorem bypass_serves_as_sentinel (w : world) st req (fields : Body V) :
  req_body req = Some fields ->
  let note := mkNoteInput (Some "test@dev.com") (fields "title") (fields "smart_notes")
                          (fields "mcq_json") (fields "pages") in
  getUser_calls (fst (serve true w st POST_api_notes req)) = [] /\
  store_calls (snd (snd (serve true w st POST_api_notes req))) = [SaveNote note] /\
  store_calls (snd (snd (serve true w st GET_api_notes req))) =
    [FindNotes (Some "test@dev.com")].
Proof.
  intros Hbody note. repeat split.
  - unfold serve, behind_requireAuth. simpl.
    unfold post_notes, post_notes_try, destructure, await_store. rewrite Hbody. simpl.
    fold note. destruct (Note_save st note); reflexivity.
  - unfold serve, behind_requireAuth. simpl.
    unfold get_notes, get_notes_try, await_store. simpl.
    destruct (Note_find st (Some "test@dev.com")); reflexivity.
Qed.

End RouteFacts.

(** ** The further theorems at concrete inputs *)
Section MoreExamples.
Import Search Server Routes Reading Scenario SearchScenario RouteScenario.

Example webSearch_entry_count_mixed :
  webSearch_collect encode (answers mixed) "photosynthesis" 3 =
    inr ["Photosynthesis converts light energy into chemical energy.";
         "Leaf";
         "The Calvin cycle fixes carbon dioxide into sugars."] /\
  length (webSearch_entries encode (answers mixed) "photosynthesis" 3) = 2%nat.
Proof.
  split; [reflexivity|].
  exact (webSearch_entry_count encode (answers mixed) "photosynthesis" 3 _ eq_refl).
Defined.

Example webSearch_abstract_takes_a_place_photosynthesis :
  decoded encode (answers (JObject photosynthesis_object)) webSearch_url webSearch_headers
          "photosynthesis" (JObject photosynthesis_object) /\
  existsb is_null_topic (visited_topics photosynthesis_object 2) = false /\
  webSearch_entries encode (answers (JObject photosynthesis_object)) "photosynthesis" 2 =
    ["[1] Photosynthesis converts light energy into chemical energy.";
     "[2] Chloroplasts are the site of photosynthesis in plants."].
Proof.
  assert (Hans : decoded encode (answers (JObject photosynthesis_object))
                   webSearch_url webSearch_headers
                   "photosynthesis" (JObject photosynthesis_object)).
  { exists "photosynthesis", (Search.mkResponse true 200 (inr (JObject photosynthesis_object))).
    repeat split. }
  assert (Hlong : (20 < String.length
                          "Photosynthesis converts light energy into chemical energy.")%nat).
  { apply Nat.ltb_lt. reflexivity. }
  assert (Hn : (1 <= 2)%Z) by discriminate.
  split; [exact Hans|]. split; [reflexivity|].
  exact (proj2 (webSearch_abstract_takes_a_place encode
                  (answers (JObject photosynthesis_object)) "photosynthesis" 2
                  photosynthesis_object Hans eq_refl)
               "Photosynthesis converts light energy into chemical energy."
               eq_refl Hlong Hn).
Defined.

Example search_reports_bad_status_503 :
  encode "leaf" = inr "leaf" /\
  resp_ok (Search.mkResponse false 503 (inl (JS.mkErr "SyntaxError" "Unexpected token <"))) = false /\
  Search.webSearch encode (refuses 503) "leaf" 3 =
    inr (mkResult false None (Some "Search API returned 503") None) /\
  Search.searchWikipedia encode (refuses 503) "leaf" =
    inr (mkResult false None (Some "Wikipedia API failed") None).
Proof.
  split; [reflexivity|]. split; [reflexivity|].
  destruct (search_reports_bad_status encode (refuses 503) "leaf" "leaf" 3
              (Search.mkResponse false 503 (inl (JS.mkErr "SyntaxError" "Unexpected token <")))
              eq_refl eq_refl) as [Hweb Hwiki].
  split; [exact (Hweb eq_refl) | exact (Hwiki eq_refl)].
Defined.

Example search_reports_rejection_aborted :
  encode "leaf" = inr "leaf" /\
  Search.webSearch encode aborted "leaf" 3 =
    inr (mkResult false None (Some "Search timed out") None) /\
  Search.searchWikipedia encode aborted "leaf" =
    inr (mkResult false None (Some "The operation was aborted.") None).
Proof.
  split; [reflexivity|].
  destruct (search_reports_rejection encode aborted "leaf" "leaf" 3
              (JS.mkErr "AbortError" "The operation was aborted.") eq_refl)
    as [Hweb Hwiki].
  split; [exact (Hweb eq_refl) | exact (Hwiki eq_refl)].
Defined.

Example searchWikipedia_formats_every_hit_two :
  decoded encode (answers (found two_hits)) searchWikipedia_url [] "cell" (found two_hits) /\
  two_hits <> [] /\
  forallb formattable two_hits = true /\
  Search.searchWikipedia encode (answers (found two_hits)) "cell" =
    inr (mkResult true
           (Some ("[1] Cell: The cell is the unit of life" ++ JS.blank_line
                    ++ "[2] undefined: plain")) None None).
Proof.
  assert (Hans : decoded encode (answers (found two_hits)) searchWikipedia_url []
                   "cell" (found two_hits)).
  { exists "cell", (Search.mkResponse true 200 (inr (found two_hits))). repeat split. }
  assert (Hne : two_hits <> []) by discriminate.
  split; [exact Hans|]. split; [exact Hne|]. split; [reflexivity|].
  exact (proj1 (searchWikipedia_formats_every_hit encode (answers (found two_hits))
                  "cell" _ two_hits Hans eq_refl Hne eq_refl)).
Defined.


Example token_is_second_field_basic :
  JS.contains " " "Basic" = false /\
  JS.contains " " "abc" = false /\
  token_of (mkRequest (Some "Basic abc")) = Some "abc" /\
  (forall rest, token_of (mkRequest (Some ("Basic abc " ++ rest))) = Some "abc").
Proof.
  split; [reflexivity|]. split; [reflexivity|].
  exact (token_is_second_field "Basic" "abc" eq_refl eq_refl).
Defined.

Example passes_iff_user_without_error_ada :
  token_of (mkRequest (Some "Bearer abc")) = Some "abc" /\
  JS.truthy "abc" = true /\
  userEmail (snd (handle false provider_accepts (mkRequest (Some "Bearer abc")))) =
    Some "ada@example.org".
Proof.
  split; [reflexivity|]. split; [reflexivity|].
  exact (proj1 (proj2 (passes_iff_user_without_error provider_accepts
                         (mkRequest (Some "Bearer abc")) "abc" eq_refl eq_refl))
               (mkUser "ada@example.org") eq_refl).
Defined.

Example bypass_needs_exact_true_uppercase :
  Some "TRUE" <> Some "true" /\
  no_credential (mkRequest None) /\
  BYPASS_AUTH (Some "TRUE") = false /\
  handle (BYPASS_AUTH (Some "TRUE")) provider_accepts (mkRequest None) =
    (inr tt, mkEffects [] [] None 0 [no_token_reply]).
Proof.
  assert (Henv : Some "TRUE" <> Some "true") by discriminate.
  split; [exact Henv|]. split; [exact header_absent|].
  exact (bypass_needs_exact_true (Some "TRUE") provider_accepts (mkRequest None)
           Henv header_absent).
Defined.

Example rejected_requests_reach_no_store_no_header :
  no_credential (headers (request_with None)) /\
  exists rp,
    snd (serve false provider_accepts store_up POST_api_notes (request_with None)) =
      (inr tt, mkTrace [] [of_reply rp]) /\
    (rp = no_token_reply \/ rp = authentication_failed_reply) /\
    status rp = 401.
Proof.
  split; [exact header_absent|].
  exact (rejected_requests_reach_no_store string string provider_accepts store_up
           POST_api_notes (request_with None) (or_introl header_absent)).
Defined.

Example writes_are_owned_by_ada :
  token_of (headers (request_with (Some "Bearer abc"))) = Some "abc" /\
  JS.truthy "abc" = true /\
  race_result provider_accepts "abc" =
    inr (mkUserResponse (Some (mkUser "ada@example.org")) None) /\
  req_body (request_with (Some "Bearer abc")) = Some body_with_email /\
  snd (serve false provider_accepts store_up POST_api_notes
             (request_with (Some "Bearer abc"))) =
    (inr tt,
     mkTrace [SaveNote (mkNoteInput (Some "ada@example.org")
                                    (Some "Cell biology") None None None)]
             [mkResponse 200 (NoteCreated "ada@example.org")]).
Proof.
  repeat (split; [reflexivity|]).
  exact (proj1 (writes_are_owned_by_the_verified_identity string string
                  provider_accepts store_up (request_with (Some "Bearer abc"))
                  "abc" (mkUser "ada@example.org") body_with_email
                  eq_refl eq_refl eq_refl eq_refl)).
Defined.

Example reads_are_scoped_to_ada :
  token_of (headers (request_with (Some "Bearer abc"))) = Some "abc" /\
  JS.truthy "abc" = true /\
  race_result provider_accepts "abc" =
    inr (mkUserResponse (Some (mkUser "ada@example.org")) None) /\
  snd (serve false provider_accepts store_down GET_api_notes
             (request_with (Some "Bearer abc"))) =
    (inr tt,
     mkTrace [FindNotes (Some "ada@example.org")]
             [mkResponse 500 (Fields [("success", VBool false);
                                      ("error", VString "connection lost")])]).
Proof.
  repeat (split; [reflexivity|]).
  exact (proj1 (reads_are_scoped_to_the_verified_identity string string
                  provider_accepts store_down (request_with (Some "Bearer abc"))
                  "abc" (mkUser "ada@example.org") eq_refl eq_refl eq_refl)).
Defined.

Example post_without_body_is_500_bypass :
  req_body (request_without_body None) = None /\
  next_calls (snd (handle true provider_accepts (headers (request_without_body None)))) = 1%nat /\
  snd (serve true provider_accepts store_up POST_api_career (request_without_body None)) =
    (inr tt,
     mkTrace []
       [mkResponse 500
          (Fields [("success", VBool false);
                   ("error",
                    VString "Cannot destructure property 'role' of 'req.body' as it is undefined.")])]).
Proof.
  repeat (split; [reflexivity|]).
  exact (proj2 (post_without_body_is_500 string string true provider_accepts store_up
                  (request_without_body None) eq_refl eq_refl)).
Defined.

Example bypass_serves_as_sentinel_stale_token :
  req_body (request_with (Some "Bearer stale")) = Some body_with_email /\
  getUser_calls (fst (serve true provider_rejects store_up POST_api_notes
                            (request_with (Some "Bearer stale")))) = [] /\
  store_calls (snd (snd (serve true provider_rejects store_up POST_api_notes
                               (request_with (Some "Bearer stale"))))) =
    [SaveNote (mkNoteInput (Some "test@dev.com") (Some "Cell biology") None None None)] /\
  store_calls (snd (snd (serve true provider_rejects store_up GET_api_notes
                               (request_with (Some "Bearer stale"))))) =
    [FindNotes (Some "test@dev.com")].
Proof.
  split; [reflexivity|].
  exact (bypass_serves_as_sentinel string string provider_rejects store_up
           (request_with (Some "Bearer stale")) body_with_email eq_refl).
Defined.

End MoreExamples.

(** ** The search client when a body read may never settle *)
Section AwaitedFacts.
Import Search.

Variable encodeURIComponent : string -> JS.completion string.
Variable fetch : string -> list (string * string) -> JS.completion Awaited.Response.

Local Abbreviation webSearch := (Awaited.webSearch encodeURIComponent fetch).
Local Abbreviation searchWikipedia := (Awaited.searchWikipedia encodeURIComponent fetch).
Local Abbreviation body_stalls := (Awaited.body_stalls encodeURIComponent fetch).

Lemma webSearch_catch_fulfils (e : JS.Error) :
  exists r, Awaited.settled (webSearch_catch e) = Awaited.Fulfilled r.
Proof.
  unfold webSearch_catch. destruct (JS.name e =? "AbortError"); simpl; eauto.
Qed.

Lemma awaited_webSearch_cases (query : string) (maxResults : Z) :
  (body_stalls webSearch_url webSearch_headers query /\
   webSearch query maxResults = Awaited.Pending) \/
  (~ body_stalls webSearch_url webSearch_headers query /\
   exists r, webSearch query maxResults = Awaited.Fulfilled r).
Proof.
  unfold Awaited.webSearch, Awaited.webSearch_try, Awaited.body_stalls. simpl.
  destruct (encodeURIComponent query) as [e|u] eqn:Hu; simpl.
  { right. split; [intros (u' & r' & H & _); discriminate | first [apply webSearch_catch_fulfils | eauto]]. }
  destruct (fetch (webSearch_url u) webSearch_headers) as [e|response] eqn:Hf; simpl.
  { right. split; [|first [apply webSearch_catch_fulfils | eauto]].
    intros (u' & r' & [= <-] & H & _). congruence. }
  destruct (Awaited.resp_ok response) eqn:Hok; simpl.
  2:{ right. split; [|first [apply webSearch_catch_fulfils | eauto]].
      intros (u' & r' & [= <-] & H & Hok' & _). congruence. }
  destruct (Awaited.resp_json response) as [data|e|] eqn:Hj; simpl.
  - right. split; [intros (u' & r' & [= <-] & H & _ & Hj'); congruence|].
    destruct (collect data maxResults) as [e|[|c cs]]; simpl; eauto.
    first [apply webSearch_catch_fulfils | eauto].
  - right. split; [intros (u' & r' & [= <-] & H & _ & Hj'); congruence|].
    first [apply webSearch_catch_fulfils | eauto].
  - left. split; [|reflexivity]. exists u, response. auto.
Qed.

Lemma awaited_searchWikipedia_cases (query : string) :
  (body_stalls searchWikipedia_url [] query /\
   searchWikipedia query = Awaited.Pending) \/
  (~ body_stalls searchWikipedia_url [] query /\
   exists r, searchWikipedia query = Awaited.Fulfilled r).
Proof.
  unfold Awaited.searchWikipedia, Awaited.searchWikipedia_try, Awaited.body_stalls. simpl.
  destruct (encodeURIComponent query) as [e|u] eqn:Hu; simpl.
  { right. split; [intros (u' & r' & H & _); discriminate | eauto]. }
  destruct (fetch (searchWikipedia_url u) []) as [e|response] eqn:Hf; simpl.
  { right. split; [|eauto]. intros (u' & r' & [= <-] & H & _). congruence. }
  destruct (Awaited.resp_ok response) eqn:Hok; simpl.
  2:{ right. split; [|eauto].
      intros (u' & r' & [= <-] & H & Hok' & _). congruence. }
  destruct (Awaited.resp_json response) as [data|e|] eqn:Hj; simpl.
  - right. split; [intros (u' & r' & [= <-] & H & _ & Hj'); congruence|].
    destruct (query_search data) as [e|[[|h rest]|]]; cbn -[map_hits]; eauto.
    destruct (map_hits 0 (h :: rest)); simpl; eauto.
  - right. split; [intros (u' & r' & [= <-] & H & _ & Hj'); congruence|]. eauto.
  - left. split; [|reflexivity]. exists u, response. auto.
Qed.

(** [webSearch] and [searchWikipedia] never reject, and each stays
    pending in exactly one case: the response came with a success status
    and the read of its body never settles (the timer was cleared before
    the read).  In every other case each fulfils with a [SnippetResult]. *)
Theorem search_settles_unless_body_stalls (query : string) (maxResults : Z) :
  ((forall e, webSearch query maxResults <> Awaited.Rejected e) /\
   (webSearch query maxResults = Awaited.Pending <->
    body_stalls webSearch_url webSearch_headers query) /\
   (~ body_stalls webSearch_url webSearch_headers query ->
    exists r, webSearch query maxResults = Awaited.Fulfilled r)) /\
  ((forall e, searchWikipedia query <> Awaited.Rejected e) /\
   (searchWikipedia query = Awaited.Pending <->
    body_stalls searchWikipedia_url [] query) /\
   (~ body_stalls searchWikipedia_url [] query ->
    exists r, searchWikipedia query = Awaited.Fulfilled r)).
Proof.
  split.
  - destruct (awaited_webSearch_cases query maxResults)
      as [[Hstalls ->] | [Hnot (r & ->)]].
    + repeat split; try discriminate; auto. intros Hnot. contradiction.
    + repeat split; try discriminate; eauto. intros Hstalls. contradiction.
  - destruct (awaited_searchWikipedia_cases query)
      as [[Hstalls ->] | [Hnot (r & ->)]].
    + repeat split; try discriminate; auto. intros Hnot. contradiction.
    + repeat split; try discriminate; eauto. intros Hstalls. contradiction.
Qed.

End AwaitedFacts.

(** [Search] is [Awaited] on the worlds whose body reads all settle. *)
Lemma awaited_agrees_on_settled_bodies
      (encodeURIComponent : string -> JS.completion string)
      (fetch : string -> list (string * string) -> JS.completion Search.Response)
      (query : string) (maxResults : Z) :
  Awaited.webSearch encodeURIComponent (Awaited.reads fetch) query maxResults =
    Awaited.settled (Search.webSearch encodeURIComponent fetch query maxResults) /\
  Awaited.searchWikipedia encodeURIComponent (Awaited.reads fetch) query =
    Awaited.settled (Search.searchWikipedia encodeURIComponent fetch query).
Proof.
  split.
  - unfold Awaited.webSearch, Awaited.webSearch_try, Awaited.reads,
      Search.webSearch, Search.webSearch_try, Search.webSearch_collect. simpl.
    destruct (encodeURIComponent query) as [e|u]; simpl; [reflexivity|].
    destruct (fetch (Search.webSearch_url u) Search.webSearch_headers) as [e|r];
      simpl; [reflexivity|].
    destruct (Search.resp_ok r); simpl; [|reflexivity].
    destruct (Search.resp_json r) as [e|data]; simpl; [reflexivity|].
    destruct (Search.collect data maxResults) as [e|[|c cs]]; reflexivity.
  - unfold Awaited.searchWikipedia, Awaited.searchWikipedia_try, Awaited.reads,
      Search.searchWikipedia, Search.searchWikipedia_try, Search.searchWikipedia_found.
    simpl.
    destruct (encodeURIComponent query) as [e|u]; simpl; [reflexivity|].
    destruct (fetch (Search.searchWikipedia_url u) []) as [e|r]; simpl; [reflexivity|].
    destruct (Search.resp_ok r); simpl; [|reflexivity].
    destruct (Search.resp_json r) as [e|data]; simpl; [reflexivity|].
    destruct (Search.query_search data) as [e|[[|h rest]|]];
      cbn -[Search.map_hits]; try reflexivity.
    destruct (Search.map_hits 0 (h :: rest)); reflexivity.
Qed.

(** C4 at a concrete input: the provider sends a 200 head in time and
    never completes the body.  Neither call returns a [SnippetResult]:
    both stay pending, since the timer that would have reported 'Search
    timed out' was cleared before the body was read. *)
Example search_pending_on_stalled_body :
  Awaited.webSearch Scenario.encode Awaited.stalled "leaf" 3 = Awaited.Pending /\
  Awaited.searchWikipedia Scenario.encode Awaited.stalled "leaf" = Awaited.Pending /\
  Awaited.checkSearchHealth Scenario.encode Awaited.stalled = Awaited.Pending.
Proof. repeat split. Qed.

(** ** The credential gate by the shape of the header *)
Section CredentialFacts.
Import Server.

(** C5, as amended.  In normal mode a request whose authorization header
    is absent, has no space, or has an empty second space-separated field
    is answered 401 'No token provided' without any call of the identity
    provider.  Every other header, whatever its scheme word and whatever
    follows a second space, has its second field submitted to the
    identity provider, and is not answered 'No token provided'. *)
Theorem credential_gate_by_header_shape (w : world) (req : request) :
  (no_credential req ->
   handle false w req = (inr tt, mkEffects [] [] None 0 [no_token_reply])) /\
  (forall scheme token rest,
     JS.contains " " scheme = false ->
     JS.contains " " token = false ->
     token <> EmptyString ->
     authorization req = Some (scheme ++ String " " token) \/
     authorization req = Some (scheme ++ String " " (token ++ String " " rest)) ->
     getUser_calls (snd (handle false w req)) = [token] /\
     sent (snd (handle false w req)) <> [no_token_reply]).
Proof.
  split.
  - intros H. apply handle_without_token. now apply no_credential_token.
  - intros scheme token rest Hs Ht Hne Hh.
    assert (Htok : token_of req = Some token).
    { unfold token_of. destruct Hh as [-> | ->].
      - rewrite split_append, split_without by assumption. reflexivity.
      - rewrite !split_append by assumption. reflexivity. }
    assert (Htruthy : JS.truthy token = true).
    { destruct token; [contradiction | reflexivity]. }
    rewrite (handle_with_token w req token Htok Htruthy).
    destruct (race_result w token) as [e|r]; [split; [reflexivity | discriminate]|].
    destruct (error r), (user r); split; try reflexivity; discriminate.
Qed.

End CredentialFacts.

(** C5 fails as stated at a concrete input: the header 'Basic abc' is not
    a bearer credential, yet its second field is submitted to the identity
    provider and, the provider accepting it, the request is passed on. *)
Example garbled_header_reaches_provider :
  Credential.missing_or_garbled (Server.mkRequest (Some "Basic abc")) = true /\
  Server.handle false Scenario.provider_accepts (Server.mkRequest (Some "Basic abc")) =
    (inr tt, Server.mkEffects [] ["abc"] (Some "ada@example.org") 1 []) /\
  Server.handle false Scenario.provider_accepts (Server.mkRequest (Some "Basic abc")) <>
    (inr tt, Server.mkEffects [] [] None 0 [Server.no_token_reply]).
Proof. repeat split. discriminate. Qed.

Example credential_gate_by_header_shape_extra_field :
  (Server.no_credential (Server.mkRequest (Some "Bearer abc def")) ->
   Server.handle false Scenario.provider_rejects (Server.mkRequest (Some "Bearer abc def")) =
     (inr tt, Server.mkEffects [] [] None 0 [Server.no_token_reply])) /\
  Server.getUser_calls
    (snd (Server.handle false Scenario.provider_rejects
            (Server.mkRequest (Some "Bearer abc def")))) = ["abc"] /\
  Server.sent
    (snd (Server.handle false Scenario.provider_rejects
            (Server.mkRequest (Some "Bearer abc def")))) <> [Server.no_token_reply].
Proof.
  destruct (credential_gate_by_header_shape Scenario.provider_rejects
              (Server.mkRequest (Some "Bearer abc def"))) as [Hnone Hsome].
  split; [exact Hnone|].
  apply (Hsome "Bearer" "abc" "def"); try reflexivity; [discriminate | now right].
Defined.
